(** * The Synacor virtual machine of [vm.py] and its room explorer

    A shallow embedding of [src/vm.py]: the [Vm] class (15-bit word machine
    with memory, stack, instruction pointer, a status flag and two text
    streams), the room parser [parse_room] and the breadth-first loop of
    [main].  Python integers are [Z], Python lists are [list] with Python's
    indexing rules (negative indices count from the end, anything else out of
    range raises), a Python [str] is the list of its code points, and an
    exception is a value of [exn] returned instead of a result. *)

From stdpp Require Import base numbers list strings gmap pretty.
From Stdlib Require Import Init.Byte.

Local Open Scope Z_scope.

(** ** Exceptions *)

(** The Python exceptions the modelled code can raise, one constructor per
    raise site kind. *)
Inductive exn : Type :=
  | InvalidNumber (n : Z)      (* raise ValueError(f"Invalid number {n}") *)
  | ChrOutOfRange              (* chr() arg not in range(0x110000) *)
  | UnpackMismatch             (* too many / not enough values to unpack *)
  | ListIndexOutOfRange        (* list index out of range *)
  | PopFromEmptyList           (* pop from empty list *)
  | ModuloByZero               (* integer modulo by zero *)
  | AssertionFailed.           (* a failed assert statement *)

(** The Python class of each exception: what an [except] clause of the
    caller can tell apart. *)
Inductive exn_class : Type :=
  | ValueError | IndexError | ZeroDivisionError | AssertionError.

Definition class_of (e : exn) : exn_class :=
  match e with
  | InvalidNumber _ | ChrOutOfRange | UnpackMismatch => ValueError
  | ListIndexOutOfRange | PopFromEmptyList => IndexError
  | ModuloByZero => ZeroDivisionError
  | AssertionFailed => AssertionError
  end.

Inductive result (A : Type) : Type :=
  | Ok (a : A)
  | Raise (e : exn).
Arguments Ok {A} a.
Arguments Raise {A} e.

(** ** Python lists and strings *)

(** A [str] as the list of its code points; [ord] is then the identity and
    [chr] checks the Unicode range. *)
Abbreviation pystr := (list Z) (only parsing).

Definition of_string (s : string) : pystr :=
  map (λ a, Z.of_N (Ascii.N_of_ascii a)) (String.list_ascii_of_string s).

Definition NL : Z := 10.

Definition chr (i : Z) : result pystr :=
  if (0 <=? i) && (i <=? 1114111) then Ok [i] else Raise ChrOutOfRange.

(** [l[i]] position: Python accepts [-len <= i < len]. *)
Definition py_index (len : nat) (i : Z) : option nat :=
  if (0 <=? i) && (i <? Z.of_nat len) then Some (Z.to_nat i)
  else if (- Z.of_nat len <=? i) && (i <? 0) then Some (Z.to_nat (Z.of_nat len + i))
  else None.

Definition getitem {A} (l : list A) (i : Z) : result A :=
  match py_index (length l) i with
  | Some n => match l !! n with Some x => Ok x | None => Raise ListIndexOutOfRange end
  | None => Raise ListIndexOutOfRange
  end.

Definition setitem (l : list Z) (i : Z) (x : Z) : result (list Z) :=
  match py_index (length l) i with
  | Some n => Ok (<[n := x]> l)
  | None => Raise ListIndexOutOfRange
  end.

(** [l.pop()]: the last element and the list without it. *)
Definition list_pop (l : list Z) : result (Z * list Z) :=
  match last l with
  | Some x => Ok (x, removelast l)
  | None => Raise PopFromEmptyList
  end.

(** ** io.StringIO *)

(** A text stream: its whole content and the cursor.  [write] overwrites
    from the cursor on and extends the content where it runs past the end
    (padding with NUL when the cursor is beyond the end). *)
Record StringIO : Type := mkStringIO { buf : pystr; pos : nat }.

Definition sio_new : StringIO := mkStringIO [] 0.

Definition sio_tell (f : StringIO) : nat := pos f.

Definition sio_seek (p : nat) (f : StringIO) : StringIO := mkStringIO (buf f) p.

Definition sio_write (s : pystr) (f : StringIO) : StringIO :=
  let p := pos f in
  mkStringIO
    (take p (buf f) ++ replicate (p - length (buf f))%nat 0 ++ s
       ++ drop (p + length s)%nat (buf f))
    (p + length s)%nat.

(** [read(1)]: [None] stands for the empty string returned at the end. *)
Definition sio_read1 (f : StringIO) : option Z * StringIO :=
  match buf f !! pos f with
  | Some c => (Some c, mkStringIO (buf f) (S (pos f)))
  | None => (None, f)
  end.

Definition sio_getvalue (f : StringIO) : pystr := buf f.

Definition sio_truncate (n : nat) (f : StringIO) : StringIO :=
  mkStringIO (take n (buf f)) (pos f).

(** The characters still to be read. *)
Definition unread (f : StringIO) : pystr := drop (pos f) (buf f).

(** ** The machine *)

Inductive State : Type := READY | HALTED | INPUT_BLOCKED.

Record Vm : Type := mkVm {
  memory : list Z;
  stack : list Z;
  ip : Z;
  state : State;
  reader : StringIO;
  writer : StringIO
}.

Definition set_memory (m : list Z) (vm : Vm) : Vm :=
  mkVm m (stack vm) (ip vm) (state vm) (reader vm) (writer vm).
Definition set_stack (s : list Z) (vm : Vm) : Vm :=
  mkVm (memory vm) s (ip vm) (state vm) (reader vm) (writer vm).
Definition set_ip (i : Z) (vm : Vm) : Vm :=
  mkVm (memory vm) (stack vm) i (state vm) (reader vm) (writer vm).
Definition set_state (st : State) (vm : Vm) : Vm :=
  mkVm (memory vm) (stack vm) (ip vm) st (reader vm) (writer vm).
Definition set_reader (r : StringIO) (vm : Vm) : Vm :=
  mkVm (memory vm) (stack vm) (ip vm) (state vm) r (writer vm).
Definition set_writer (w : StringIO) (vm : Vm) : Vm :=
  mkVm (memory vm) (stack vm) (ip vm) (state vm) (reader vm) w.

(** [Vm.__init__] *)
Definition Vm_init (memory stack : list Z) (ip : Z) : Vm :=
  mkVm memory stack ip READY sio_new sio_new.

(** [Vm.from_file]: the file is read two bytes at a time, each chunk a
    little-endian unsigned number (a last single byte is a number too), and
    the memory is padded with zeros up to 2^15 + 8 cells. *)
Definition byteZ (b : byte) : Z := Z.of_N (Byte.to_N b).

Fixpoint read_words (bs : list byte) : list Z :=
  match bs with
  | [] => []
  | [b0] => [byteZ b0]
  | b0 :: b1 :: rest => (byteZ b0 + 256 * byteZ b1) :: read_words rest
  end.

Definition from_file (file : list byte) : Vm :=
  let instructions := read_words file in
  let memory :=
    instructions ++ replicate (Z.to_nat (2 ^ 15 - Z.of_nat (length instructions) + 8)) 0 in
  Vm_init memory [] 0.

(** [Vm.dump] and [Vm.from_dump]: a snapshot is the triple of the memory
    contents, the stack contents and the instruction pointer. *)
Abbreviation Dump := (list Z * list Z * Z)%type.

Definition from_dump (d : Dump) : Vm :=
  let '(memory, stack, ip) := d in Vm_init memory stack ip.

Definition dump (vm : Vm) : Dump := (memory vm, stack vm, ip vm).

(** [Vm.input] *)
Definition input (s : pystr) (vm : Vm) : Vm :=
  let p := sio_tell (reader vm) in
  let r := sio_seek p (sio_write s (reader vm)) in
  set_state READY (set_reader r vm).

(** [Vm.output] *)
Definition output (vm : Vm) : pystr * Vm :=
  let s := sio_getvalue (writer vm) in
  (s, set_writer (sio_seek 0 (sio_truncate 0 (writer vm))) vm).

(** *** The state-and-exception monad of the methods that mutate [self] *)

Definition M (A : Type) : Type := Vm → result (A * Vm).

Definition ret {A} (a : A) : M A := λ vm, Ok (a, vm).
Definition bind {A B} (c : M A) (k : A → M B) : M B :=
  λ vm, match c vm with
        | Ok (a, vm') => k a vm'
        | Raise e => Raise e
        end.
Definition raise {A} (e : exn) : M A := λ _, Raise e.
Definition lift {A} (r : result A) : M A :=
  λ vm, match r with Ok a => Ok (a, vm) | Raise e => Raise e end.
Definition gets {A} (f : Vm → A) : M A := λ vm, Ok (f vm, vm).
Definition modify (f : Vm → Vm) : M unit := λ vm, Ok (tt, f vm).

Notation "'let*' x ':=' c 'in' k" := (bind c (λ x, k))
  (at level 10, x name, c at level 100, k at level 200).

(** [Vm.grab] *)
Definition grab : M Z :=
  let* mem := gets memory in
  let* i := gets ip in
  let* result := lift (getitem mem i) in
  let* _ := modify (set_ip (i + 1)) in
  if result <=? 32775 then ret result else raise (InvalidNumber result).

(** [Vm.val] *)
Definition val (i : Z) : M Z :=
  if i <=? 32767 then ret i
  else if i <=? 32775 then (let* mem := gets memory in lift (getitem mem i))
  else raise (InvalidNumber i).

(** [self.memory[a] = x] *)
Definition store (a x : Z) : M unit :=
  let* mem := gets memory in
  let* mem' := lift (setitem mem a x) in
  modify (set_memory mem').

Definition push (x : Z) : M unit :=
  let* st := gets stack in modify (set_stack (st ++ [x])).

Definition pop : M Z :=
  let* st := gets stack in
  let* r := lift (list_pop st) in
  let* _ := modify (set_stack r.2) in
  ret r.1.

Definition bool_int (b : bool) : Z := if b then 1 else 0.

(** [Vm.step] *)
Definition step : M unit :=
  let* op := grab in
  match op with
  | 0 => modify (set_state HALTED)
  | 1 => let* a := grab in let* b := grab in
         let* x := val b in store a x
  | 2 => let* a := grab in
         let* x := val a in push x
  | 3 => let* a := grab in
         let* x := pop in store a x
  | 4 => let* a := grab in let* b := grab in let* c := grab in
         let* x := val b in let* y := val c in store a (bool_int (x =? y))
  | 5 => let* a := grab in let* b := grab in let* c := grab in
         let* x := val b in let* y := val c in store a (bool_int (x >? y))
  | 6 => let* a := grab in
         let* x := val a in modify (set_ip x)
  | 7 => let* a := grab in let* b := grab in
         let* x := val a in
         if x =? 0 then ret tt else (let* y := val b in modify (set_ip y))
  | 8 => let* a := grab in let* b := grab in
         let* x := val a in
         if x =? 0 then (let* y := val b in modify (set_ip y)) else ret tt
  | 9 => let* a := grab in let* b := grab in let* c := grab in
         let* x := val b in let* y := val c in store a ((x + y) `mod` 32768)
  | 10 => let* a := grab in let* b := grab in let* c := grab in
          let* x := val b in let* y := val c in store a ((x * y) `mod` 32768)
  | 11 => let* a := grab in let* b := grab in let* c := grab in
          let* x := val b in let* y := val c in
          if y =? 0 then raise ModuloByZero else store a (x `mod` y)
  | 12 => let* a := grab in let* b := grab in let* c := grab in
          let* x := val b in let* y := val c in store a (Z.land x y)
  | 13 => let* a := grab in let* b := grab in let* c := grab in
          let* x := val b in let* y := val c in store a (Z.lor x y)
  | 14 => let* a := grab in let* b := grab in
          let* x := val b in store a (Z.land (Z.shiftl 1 15 - 1) (Z.lnot x))
  | 15 => let* a := grab in let* b := grab in
          let* x := val b in
          let* mem := gets memory in let* y := lift (getitem mem x) in store a y
  | 16 => let* a := grab in let* b := grab in
          let* y := val b in let* x := val a in store x y
  | 17 => let* a := grab in
          let* i := gets ip in let* _ := push i in
          let* x := val a in modify (set_ip x)
  | 18 => let* st := gets stack in
          match st with
          | [] => modify (set_state HALTED)
          | _ => let* x := pop in modify (set_ip x)
          end
  | 19 => let* a := grab in
          let* x := val a in let* s := lift (chr x) in
          modify (λ vm, set_writer (sio_write s (writer vm)) vm)
  | 20 => let* a := grab in
          let* r := gets reader in
          match sio_read1 r with
          | (None, r') =>
              let* _ := modify (set_reader r') in
              let* _ := modify (set_state INPUT_BLOCKED) in
              let* i := gets ip in modify (set_ip (i - 2))
          | (Some ch, r') =>
              let* _ := modify (set_reader r') in
              store a ch
          end
  | 21 => ret tt
  | _ => ret tt
  end.

(** [Vm.run]: the while loop, unrolled at most [fuel] times; [None] when the
    fuel is used up with the status still READY. *)
Fixpoint run (fuel : nat) (vm : Vm) : option (result Vm) :=
  match state vm with
  | READY =>
      match fuel with
      | O => None
      | S fuel' =>
          match step vm with
          | Ok (_, vm') => run fuel' vm'
          | Raise e => Some (Raise e)
          end
      end
  | _ => Some (Ok vm)
  end.

(** A small program that uses no register: it reads input characters up to
    a newline into the operand cell of its own [eq] instruction and then
    prints [A]. *)
Definition echo_prog : list Z :=
  [20; 4;  4; 7; 0; 10;  8; 0; 0;  19; 65;  6; 0].

(** ** The room parser *)

(** The [str] methods that [parse_room] calls. *)
Fixpoint startswith (p s : pystr) : bool :=
  match p, s with
  | [], _ => true
  | a :: p', b :: s' => (a =? b) && startswith p' s'
  | _ :: _, [] => false
  end.

Definition endswith (p s : pystr) : bool := startswith (reverse p) (reverse s).

Definition removeprefix (p s : pystr) : pystr :=
  if startswith p s then drop (length p) s else s.

Definition removesuffix (p s : pystr) : pystr :=
  if endswith p s && negb (bool_decide (p = []))
  then take (length s - length p) s else s.

(** [s.split(sep)] for a non-empty separator: occurrences are found from
    left to right and do not overlap.  [skip] counts the characters of a
    separator still to be passed over, [cur] holds the current piece in
    reverse. *)
Fixpoint split_aux (sep : pystr) (skip : nat) (cur s : pystr) : list pystr :=
  match s with
  | [] => [reverse cur]
  | c :: rest =>
      match skip with
      | S k => split_aux sep k cur rest
      | O =>
          if startswith sep s
          then reverse cur :: split_aux sep (length sep - 1) [] rest
          else split_aux sep O (c :: cur) rest
      end
  end.

Definition split (sep s : pystr) : list pystr := split_aux sep 0 [] s.

(** The line boundaries of [str.splitlines]: LF, CR, VT, FF, FS, GS, RS,
    NEL, LS and PS; CR LF counts as one. *)
Definition is_linebreak (c : Z) : bool :=
  bool_decide (c ∈ [10; 13; 11; 12; 28; 29; 30; 133; 8232; 8233]).

Fixpoint splitlines_aux (cur s : pystr) : list pystr :=
  match s with
  | [] => match cur with [] => [] | _ => [reverse cur] end
  | c :: rest =>
      if c =? 13 then
        match rest with
        | c' :: rest' =>
            if c' =? 10 then reverse cur :: splitlines_aux [] rest'
            else reverse cur :: splitlines_aux [] rest
        | [] => [reverse cur]
        end
      else if is_linebreak c then reverse cur :: splitlines_aux [] rest
      else splitlines_aux (c :: cur) rest
  end.

Definition splitlines (s : pystr) : list pystr := splitlines_aux [] s.

(** [[line[2:] for line in p.splitlines()[1:]]] *)
Definition list_items (p : pystr) : list pystr :=
  map (drop 2) (drop 1 (splitlines p)).

Definition assert (b : bool) : result unit :=
  if b then Ok tt else Raise AssertionFailed.

Definition prompt : pystr := of_string "What do you do?" ++ [NL].

(** [parse_room]; the result is the tuple (title, text, interests, exits). *)
Definition parse_room (s : pystr) : result (pystr * pystr * list pystr * list pystr) :=
  let paragraphs := split [NL; NL] s in
  match getitem paragraphs 0 with Raise e => Raise e | Ok p0 =>
  match assert (bool_decide (p0 = [])) with Raise e => Raise e | Ok _ =>
  match getitem paragraphs 1 with Raise e => Raise e | Ok p1 =>
  match splitlines p1 with
  | [title; text] =>
      match assert (startswith (of_string "==") title) with Raise e => Raise e | Ok _ =>
      let title := removesuffix (of_string " ==") (removeprefix (of_string "== ") title) in
      let lists :=
        if bool_decide (length paragraphs = 5%nat) then
          match getitem paragraphs 2, getitem paragraphs 3 with
          | Ok p2, Ok p3 => Ok (list_items p2, list_items p3)
          | Raise e, _ | _, Raise e => Raise e
          end
        else if bool_decide (length paragraphs = 4%nat) then
          match getitem paragraphs 2 with
          | Ok p2 => Ok ([], list_items p2)
          | Raise e => Raise e
          end
        else Raise AssertionFailed in
      match lists with Raise e => Raise e | Ok (interests, exits) =>
      match getitem paragraphs (-1) with Raise e => Raise e | Ok plast =>
      match assert (bool_decide (plast = prompt)) with Raise e => Raise e | Ok _ =>
      Ok (title, text, interests, exits)
      end end end end
  | _ => Raise UnpackMismatch
  end end end end.

(** ** The explorer loop of [main] *)

(** The loop's two collections, and a ghost log of every snapshot that was
    ever put on the queue (the seed and each [q.append]), in order. *)
Record Explorer : Type := mkExplorer {
  seen : gset Dump;
  q : list Dump;
  enqueued : list Dump
}.

Definition explorer_init (d : Dump) : Explorer := mkExplorer {[ d ]} [d] [d].

Definition known_exits : list pystr :=
  [of_string "ladder"; of_string "north"; of_string "east";
   of_string "south"; of_string "west"].

(** The commands [main] feeds the machine before it explores:
    ["\n".join([...]) + "\n"]. *)
Definition walkthrough : pystr :=
  concat (map (λ line, of_string line ++ [NL])
    ["take tablet"; "doorway"; "north"; "north"; "bridge"; "continue";
     "down"; "east"; "take empty lantern"; "west"; "west"; "passage";
     "ladder"]%string).

Section Explorer.
(** The number of instructions one [vm.run()] may take, and the outcome of
    the operator's interactive session [resume(vm)] ([None]: it does not
    return); [resume] touches neither [seen] nor [q]. *)
Variable fuel : nat.
Variable resume : Vm → option (result unit).

(** One round of the inner [for exit in exits] loop. *)
Definition try_exit (d : Dump) (ex : Explorer) (exit : pystr)
  : option (result Explorer) :=
  if bool_decide (exit = of_string "ladder") then Some (Ok ex)
  else
    match run fuel (input (exit ++ [NL]) (from_dump d)) with
    | None => None
    | Some (Raise e) => Some (Raise e)
    | Some (Ok vm) =>
        let dump2 := dump vm in
        if bool_decide (dump2 ∈ seen ex) then Some (Ok ex)
        else Some (Ok (mkExplorer ({[ dump2 ]} ∪ seen ex) (q ex ++ [dump2])
                         (enqueued ex ++ [dump2])))
    end.

Fixpoint for_exits (d : Dump) (ex : Explorer) (exits : list pystr)
  : option (result Explorer) :=
  match exits with
  | [] => Some (Ok ex)
  | exit :: exits' =>
      match try_exit d ex exit with
      | Some (Ok ex') => for_exits d ex' exits'
      | r => r
      end
  end.

Definition anomaly (title : pystr) (interests exits : list pystr) : bool :=
  negb (bool_decide (title = of_string "Twisty passages"))
  || negb (bool_decide (interests = []))
  || existsb (λ exit, negb (bool_decide (exit ∈ known_exits))) exits.

(** The body of the [while q] loop, after [dump = q.popleft()]. *)
Definition explore_node (d : Dump) (ex : Explorer) : option (result Explorer) :=
  match run fuel (input (of_string "look" ++ [NL]) (from_dump d)) with
  | None => None
  | Some (Raise e) => Some (Raise e)
  | Some (Ok vm) =>
      let '(out, vm) := output vm in
      match parse_room out with
      | Raise e => Some (Raise e)
      | Ok (title, text, interests, exits) =>
          let resumed :=
            if anomaly title interests exits then resume vm else Some (Ok tt) in
          match resumed with
          | None => None
          | Some (Raise e) => Some (Raise e)
          | Some (Ok _) => for_exits d ex exits
          end
      end
  end.

(** The [while q] loop, for at most [n] dequeued snapshots. *)
Fixpoint explore (n : nat) (ex : Explorer) : option (result Explorer) :=
  match q ex with
  | [] => Some (Ok ex)
  | d :: q' =>
      match n with
      | O => None
      | S n' =>
          match explore_node d (mkExplorer (seen ex) q' (enqueued ex)) with
          | Some (Ok ex') => explore n' ex'
          | r => r
          end
      end
  end.

(** [main]: load the program, play the fixed opening commands, drop the
    output, seed both collections with the snapshot and run the loop. *)
Definition main (n : nat) (file : list byte) : option (result Explorer) :=
  match run fuel (input walkthrough (from_file file)) with
  | None => None
  | Some (Raise e) => Some (Raise e)
  | Some (Ok vm) =>
      let '(_, vm) := output vm in
      explore n (explorer_init (dump vm))
  end.

(** The states the loop can be in: the seeded start, and from any state
    a [popleft] or one round of the inner loop. *)
Inductive reachable (d0 : Dump) : Explorer → Prop :=
  | reach_init : reachable d0 (explorer_init d0)
  | reach_popleft ex d q' :
      reachable d0 ex → q ex = d :: q' →
      reachable d0 (mkExplorer (seen ex) q' (enqueued ex))
  | reach_exit ex d exit ex' :
      reachable d0 ex → try_exit d ex exit = Some (Ok ex') →
      reachable d0 ex'.
End Explorer.

(** A program that prints a room with one exit after every input line, and
    its snapshot when it waits for input. *)
Definition room_text : pystr :=
  [NL; NL] ++ of_string "== Twisty passages ==" ++ [NL]
  ++ of_string "You are in a maze." ++ [NL; NL]
  ++ of_string "There is 1 exit:" ++ [NL] ++ of_string "- north" ++ [NL; NL]
  ++ prompt.

Definition room_prog : list Z :=
  [20; 4;  4; 7; 10; 10;  8; 1; 0]
  ++ concat (map (λ c, [19; c]) room_text) ++ [6; 0].

Definition room_dump : Dump := (room_prog, [], 0).

(** [sep.join(pieces)] *)
Fixpoint join (sep : pystr) (pieces : list pystr) : pystr :=
  match pieces with
  | [] => []
  | [p] => p
  | p :: rest => p ++ sep ++ join sep rest
  end.

(** ** The operator's session [resume] *)

(** [repr] of an int, of a tuple and [str(vm.dump())]: a tuple is its items
    separated by a comma and a space, in parentheses, with a trailing comma
    when there is one item only. *)
Definition repr_int (z : Z) : pystr := of_string (pretty z).

Definition repr_tuple (items : list pystr) : pystr :=
  match items with
  | [] => of_string "()"
  | [x] => of_string "(" ++ x ++ of_string ",)"
  | _ => of_string "(" ++ join (of_string ", ") items ++ of_string ")"
  end.

Definition str_dump (d : Dump) : pystr :=
  let '(memory, stack, ip) := d in
  repr_tuple [repr_tuple (map repr_int memory); repr_tuple (map repr_int stack);
              repr_int ip].

(** [s.split(sep, 1)]: split at the first occurrence only. *)
Fixpoint split_once_aux (sep cur s : pystr) : list pystr :=
  match s with
  | [] => [reverse cur]
  | c :: rest =>
      if startswith sep s then [reverse cur; drop (length sep) s]
      else split_once_aux sep (c :: cur) rest
  end.

Definition split_once (sep s : pystr) : list pystr := split_once_aux sep [] s.

(** The console: the lines the operator will type (without their newline),
    what was printed (one entry per [print]) and the files written (path
    and content, in order). *)
Record Console : Type := mkConsole {
  stdin : list pystr;
  stdout : list pystr;
  written : list (pystr * pystr)
}.

(** What [resume] can raise: an exception of the machine or of its own
    [assert], the EOFError of [input()] and the OSError of [open]. *)
Inductive io_exn : Type :=
  | PyExn (e : exn)
  | EOFError
  | OSError.

(** How a call ends: it returns, it raises, or a [vm.run()] does not end
    within the fuel. *)
Inductive outcome (A : Type) : Type :=
  | Returns (a : A)
  | Raises (e : io_exn)
  | Diverges.
Arguments Returns {A} a.
Arguments Raises {A} e.
Arguments Diverges {A}.

Definition look_cmd : pystr := of_string "look" ++ [NL].

Section Resume.
(** The number of instructions one [vm.run()] may take, and which paths
    [open(path, "w")] can open. *)
Variable fuel : nat.
Variable can_open : pystr → bool.

(** The custom dump command: [if inp.startswith("d "): ...]. *)
Definition dump_command (inp : pystr) (vm : Vm) (files : list (pystr * pystr))
  : list (pystr * pystr) + io_exn :=
  if startswith (of_string "d ") inp then
    match getitem (split_once (of_string " ") inp) 1 with
    | Ok path =>
        if can_open path then inl (files ++ [(path, str_dump (dump vm))])
        else inr OSError
    | Raise e => inr (PyExn e)
    end
  else inl files.

(** The [while True] loop of [resume]; every further round takes one line
    of the operator. *)
Fixpoint resume_loop (lines : list pystr) (vm : Vm) (out : list pystr)
    (files : list (pystr * pystr)) : outcome (Vm * Console) :=
  match state vm with
  | READY =>
      match run fuel vm with
      | None => Diverges
      | Some (Raise e) => Raises (PyExn e)
      | Some (Ok vm) =>
          let '(s, vm) := output vm in
          let out := out ++ [s] in
          match state vm with
          | INPUT_BLOCKED =>
              match run fuel (input look_cmd vm) with
              | None => Diverges
              | Some (Raise e) => Raises (PyExn e)
              | Some (Ok vm) =>
                  match lines with
                  | [] => Raises EOFError
                  | inp :: rest =>
                      if bool_decide (inp = of_string "q")
                      then Returns (vm, mkConsole rest
                                          (out ++ [of_string "--- VM Exited ---"]) files)
                      else
                        match dump_command inp vm files with
                        | inl files =>
                            resume_loop rest (input (inp ++ [NL]) vm) out files
                        | inr e => Raises e
                        end
                  end
              end
          | _ => Returns (vm, mkConsole lines
                                (out ++ [of_string "--- VM Exited ---"]) files)
          end
      end
  | _ => Raises (PyExn AssertionFailed)
  end.

(** [resume] *)
Definition resume (vm : Vm) (con : Console) : outcome (Vm * Console) :=
  resume_loop (stdin con) (input look_cmd vm)
    (stdout con ++ [of_string "--- Resuming VM ---"]) (written con).
End Resume.

(** ** Definitions used in the statements *)

(** The machine of [echo_prog], Halted before its first instruction. *)
Definition halted_echo : Vm := set_state HALTED (Vm_init echo_prog [] 0).

(** Two machines that differ at most in their status. *)
Definition same_but_status (a b : Vm) : Prop :=
  set_state READY a = set_state READY b.

(** A computation is blind to the status when, started on two such
    machines, it returns the same value or raises the same exception and
    leaves two such machines. *)
Definition blind {A} (c : M A) : Prop :=
  ∀ vm1 vm2, same_but_status vm1 vm2 →
    match c vm1, c vm2 with
    | Ok (a1, v1), Ok (a2, v2) => a1 = a2 ∧ same_but_status v1 v2
    | Raise e1, Raise e2 => e1 = e2
    | _, _ => False
    end.

(** The machine [out 65], Halted before its first instruction. *)
Definition halted_out : Vm := set_state HALTED (Vm_init [19; 65] [] 0).

(** Every element of the list is in [0, 2^k). *)
Definition cells_below (k : Z) (l : list Z) : Prop :=
  Forall (λ x, 0 ≤ x < 2 ^ k) l.

(** The first line of the second paragraph, when that paragraph has exactly
    two lines. *)
Definition title_line (s : pystr) : option pystr :=
  match getitem (split [NL; NL] s) 1 with
  | Ok p1 => match splitlines p1 with [title; _] => Some title | _ => None end
  | Raise _ => None
  end.

(** A room text whose title line lacks the closing delimiter. *)
Definition foyer_text : pystr :=
  [NL; NL] ++ of_string "== Foyer" ++ [NL] ++ of_string "A hall." ++ [NL; NL]
  ++ of_string "There is 1 exit:" ++ [NL] ++ of_string "- north" ++ [NL; NL]
  ++ prompt.

(** What holds of the visited set, the queue and the log of enqueued
    snapshots in every state of the loop. *)
Definition explorer_inv (ex : Explorer) : Prop :=
  (∀ d, d ∈ enqueued ex → d ∈ seen ex) ∧
  NoDup (enqueued ex) ∧
  q ex `suffix_of` enqueued ex.

(** The machine of [room_dump] after the command [north]. *)
Definition after_north : Vm :=
  match run 500 (input (of_string "north" ++ [NL]) (from_dump room_dump)) with
  | Some (Ok vm) => vm
  | _ => Vm_init [] [] 0
  end.

(** A stream whose cursor is at the end of its content, as the writer's
    always is: it is only written to and emptied. *)
Definition at_end (f : StringIO) : Prop := pos f = length (buf f).

(** The straight-line program that prints a text and halts: one
    [out c] per character, then [halt]. *)
Definition out_prog (cs : pystr) : list Z :=
  concat (map (λ c, [19; c]) cs) ++ [0].

(** Two machines with the same snapshot, status, unread input and
    writer: they may differ in the input already consumed. *)
Definition same_observable (a b : Vm) : Prop :=
  dump a = dump b ∧ state a = state b ∧
  unread (reader a) = unread (reader b) ∧ writer a = writer b.

(** A computation respects that relation when, started on two such
    machines, it returns the same value or raises the same exception and
    leaves two such machines. *)
Definition respects {A} (c : M A) : Prop :=
  ∀ v1 v2, same_observable v1 v2 →
    match c v1, c v2 with
    | Ok (a1, w1), Ok (a2, w2) => a1 = a2 ∧ same_observable w1 w2
    | Raise e1, Raise e2 => e1 = e2
    | _, _ => False
    end.

(** The same for the outcomes of two runs. *)
Definition same_outcome (r1 r2 : option (result Vm)) : Prop :=
  match r1, r2 with
  | Some (Ok a), Some (Ok b) => same_observable a b
  | Some (Raise e1), Some (Raise e2) => e1 = e2
  | None, None => True
  | _, _ => False
  end.

(** A character that [str.splitlines] does not split at. *)
Definition no_break (line : pystr) : Prop :=
  Forall (λ c, is_linebreak c = false) line.

(** The machine of [room_dump] after the command [look]. *)
Definition after_look : Vm :=
  match run 500 (input (of_string "look" ++ [NL]) (from_dump room_dump)) with
  | Some (Ok vm) => vm
  | _ => Vm_init [] [] 0
  end.



(** The same machine after its output is drained and [look] is given a
    second time. *)
Definition after_look2 : Vm :=
  match run 500 (input look_cmd (output after_look).2) with
  | Some (Ok vm) => vm
  | _ => Vm_init [] [] 0
  end.

(** The room seen from snapshot [d] can be parsed, and every exit of it
    other than [ladder] leads to a snapshot of the set [X]. *)
Definition successors_in (fuel : nat) (d : Dump) (X : gset Dump) : Prop :=
  ∃ vm title text interests exits,
    run fuel (input look_cmd (from_dump d)) = Some (Ok vm) ∧
    parse_room (output vm).1 = Ok (title, text, interests, exits) ∧
    ∀ exit, exit ∈ exits → exit ≠ of_string "ladder" →
      ∃ vm', run fuel (input (exit ++ [NL]) (from_dump d)) = Some (Ok vm') ∧
             dump vm' ∈ X.

(** A machine whose memory cells, stack entries and unread input
    characters are all in [0, 2^k), whose ip is too and whose memory has
    fewer than 2^k cells. *)
Definition machine_below (k : Z) (vm : Vm) : Prop :=
  cells_below k (memory vm) ∧ cells_below k (stack vm) ∧
  cells_below k (unread (reader vm)) ∧
  0 ≤ ip vm < 2 ^ k ∧ Z.of_nat (length (memory vm)) < 2 ^ k.

(** The machine the program [out 65; halt] ends in. *)
Definition out_a_done : Vm :=
  match run 5 (Vm_init (out_prog [65]) [] 0) with
  | Some (Ok vm) => vm
  | _ => Vm_init [] [] 0
  end.

(** * Properties *)

(** ** Decoding *)

Lemma grab_ok vm x :
  getitem (memory vm) (ip vm) = Ok x → x ≤ 32775 →
  grab vm = Ok (x, set_ip (ip vm + 1) vm).
Proof.
  intros Hget Hle. unfold grab, bind, gets, lift, modify. rewrite Hget.
  destruct (Z.leb_spec x 32775); [reflexivity | lia].
Qed.

Lemma grab_inv vm x vm' :
  grab vm = Ok (x, vm') →
  getitem (memory vm) (ip vm) = Ok x ∧ x ≤ 32775 ∧ vm' = set_ip (ip vm + 1) vm.
Proof.
  unfold grab, bind, gets, lift, modify.
  destruct (getitem (memory vm) (ip vm)) as [y|e]; [|discriminate].
  destruct (Z.leb_spec y 32775); unfold ret, raise; [|discriminate].
  intros [= <- <-]. auto.
Qed.

(** The opcode dispatch of [step] has a case for 0..21 only. *)
Ltac case_opcode p :=
  repeat (destruct p as [p|p|]; try lia; try reflexivity).

(** ** Status and input *)

Lemma run_not_ready fuel vm : state vm ≠ READY → run fuel vm = Some (Ok vm).
Proof. destruct fuel; simpl; destruct (state vm); congruence. Qed.

Lemma unread_nil f : unread f = [] ↔ buf f !! pos f = None.
Proof.
  unfold unread. rewrite lookup_ge_None. split.
  - intros H. apply (f_equal length) in H. rewrite length_drop in H. simpl in H. lia.
  - intros H. by apply drop_ge.
Qed.

Lemma unread_cons f c : buf f !! pos f = Some c →
  unread f = c :: unread (mkStringIO (buf f) (S (pos f))).
Proof. intros H. unfold unread. simpl. by apply drop_S. Qed.

Lemma write_at_end s f :
  unread f = [] → unread (sio_seek (sio_tell f) (sio_write s f)) = s.
Proof.
  intros H. apply unread_nil, lookup_ge_None in H.
  unfold unread, sio_seek, sio_tell, sio_write. simpl.
  rewrite (take_ge (buf f)) by lia.
  rewrite (drop_ge (buf f) (pos f + length s)) by lia.
  rewrite app_nil_r, app_assoc, drop_app_length'; [done|].
  rewrite length_app, length_replicate. lia.
Qed.

(** C1, as stated, fails: a Halted machine that is given input is Ready
    again, and [run] then executes instructions (here it prints [A]). *)
Lemma input_revives_halted :
  state halted_echo = HALTED ∧
  state (input [NL] halted_echo) = READY ∧
  ∃ vm', run 10 (input [NL] halted_echo) = Some (Ok vm') ∧
         sio_getvalue (writer halted_echo) = [] ∧
         sio_getvalue (writer vm') = [65].
Proof. repeat split; try reflexivity. eexists. vm_compute. repeat split. Qed.

(** C1 (amended): [Vm.input] sets the status to READY whatever it was
    before, Halted included, and touches nothing but the reader; when no
    unread input is pending, the unread input afterwards is the given text.
    A Halted machine that is given no input stays as it is under [run]. *)
Theorem input_always_ready (s : pystr) (vm : Vm) :
  state (input s vm) = READY ∧
  memory (input s vm) = memory vm ∧ stack (input s vm) = stack vm ∧
  ip (input s vm) = ip vm ∧ writer (input s vm) = writer vm ∧
  (unread (reader vm) = [] → unread (reader (input s vm)) = s) ∧
  (∀ fuel, state vm = HALTED → run fuel vm = Some (Ok vm)).
Proof.
  repeat split.
  - intros H. unfold input. simpl. by apply write_at_end.
  - intros fuel H. apply run_not_ready. congruence.
Qed.

Lemma input_always_ready_witness :
  unread (reader (input [NL] halted_echo)) = [NL] ∧
  run 3 halted_echo = Some (Ok halted_echo).
Proof.
  destruct (input_always_ready [NL] halted_echo) as (_ & _ & _ & _ & _ & Hq & Hrun).
  split; [apply Hq; reflexivity | apply Hrun; reflexivity].
Defined.

(** ** [step] does not look at the status *)

Ltac same_fields :=
  unfold same_but_status, set_state, set_ip, set_memory, set_stack,
    set_reader, set_writer;
  intros [] []; simpl; intros [= -> -> -> -> ->]; reflexivity.

Lemma blind_ret {A} (a : A) : blind (ret a).
Proof. intros vm1 vm2 H. simpl. auto. Qed.

Lemma blind_raise {A} e : blind (raise (A := A) e).
Proof. intros vm1 vm2 H. reflexivity. Qed.

Lemma blind_lift {A} (r : result A) : blind (lift r).
Proof. intros vm1 vm2 H. unfold lift. destruct r; simpl; auto. Qed.

Lemma blind_bind {A B} (c : M A) (k : A → M B) :
  blind c → (∀ a, blind (k a)) → blind (bind c k).
Proof.
  intros Hc Hk vm1 vm2 H. unfold bind. specialize (Hc vm1 vm2 H).
  destruct (c vm1) as [[a1 v1]|e1], (c vm2) as [[a2 v2]|e2]; try done.
  destruct Hc as [-> Hv]. apply Hk, Hv.
Qed.

Lemma blind_gets {A} (f : Vm → A) :
  (∀ a b, same_but_status a b → f a = f b) → blind (gets f).
Proof. intros Hf vm1 vm2 H. unfold gets. split; auto. Qed.

Lemma blind_modify (f : Vm → Vm) :
  (∀ a b, same_but_status a b → same_but_status (f a) (f b)) → blind (modify f).
Proof. intros Hf vm1 vm2 H. unfold modify. split; auto. Qed.

Ltac blind_step :=
  first
    [ apply blind_ret | apply blind_raise | apply blind_lift
    | apply blind_bind; [|intros ?]
    | apply blind_gets; same_fields
    | apply blind_modify; same_fields
    | match goal with
      | |- blind (if ?b then _ else _) => destruct b
      | |- blind (match ?x with [] => _ | _ :: _ => _ end) => destruct x
      | |- blind (let (_, _) := ?x in _) => destruct x as [[?|] ?]
      end ].

Lemma blind_grab : blind grab.
Proof. unfold grab. repeat blind_step. Qed.

Lemma blind_val i : blind (val i).
Proof. unfold val. repeat blind_step. Qed.

Lemma blind_store a x : blind (store a x).
Proof. unfold store. repeat blind_step. Qed.

Lemma blind_push x : blind (push x).
Proof. unfold push. repeat blind_step. Qed.

Lemma blind_pop : blind pop.
Proof. unfold pop. repeat blind_step. Qed.

Ltac blind_instr :=
  repeat first
    [ apply blind_grab | apply blind_val | apply blind_store
    | apply blind_push | apply blind_pop | blind_step ].

Lemma blind_step_vm : blind step.
Proof.
  unfold step. apply blind_bind; [apply blind_grab|]. intros op.
  destruct op as [|p|p]; [blind_instr| |blind_instr].
  repeat (destruct p as [p|p|]; try solve [blind_instr]).
Qed.

Lemma same_but_status_fields a b :
  same_but_status a b →
  memory a = memory b ∧ stack a = stack b ∧ ip a = ip b ∧
  reader a = reader b ∧ writer a = writer b.
Proof. destruct a, b. unfold same_but_status. simpl. intros [= -> -> -> -> ->]. auto. Qed.

(** C2, as stated, fails: [step] on a Halted machine executes the next
    instruction, here [out 65], moving ip and writing to the output. *)
Lemma step_runs_when_halted :
  state halted_out = HALTED ∧
  ∃ vm', step halted_out = Ok (tt, vm') ∧
         ip halted_out = 0 ∧ ip vm' = 2 ∧
         sio_getvalue (writer halted_out) = [] ∧
         sio_getvalue (writer vm') = [65].
Proof. split; [reflexivity|]. eexists. vm_compute. repeat split. Qed.

(** C2 (amended): [step] executes one instruction whatever the status is:
    what it does to memory, stack, ip and the two buffers, and the error it
    raises, are the same for every status the machine is put in.  The
    no-op is [run]'s: on a machine that is not READY it returns at once and
    leaves the machine as it is. *)
Theorem step_ignores_status (vm : Vm) (st : State) :
  match step vm with
  | Ok (_, vm') =>
      ∃ vm'', step (set_state st vm) = Ok (tt, vm'') ∧
              memory vm'' = memory vm' ∧ stack vm'' = stack vm' ∧
              ip vm'' = ip vm' ∧ reader vm'' = reader vm' ∧
              writer vm'' = writer vm'
  | Raise e => step (set_state st vm) = Raise e
  end ∧
  (∀ fuel, state vm ≠ READY → run fuel vm = Some (Ok vm)).
Proof.
  split; [|intros fuel H; by apply run_not_ready].
  assert (Hs : same_but_status vm (set_state st vm)) by (destruct vm; reflexivity).
  pose proof (blind_step_vm vm (set_state st vm) Hs) as H.
  destruct (step vm) as [[[] v1]|e1], (step (set_state st vm)) as [[[] v2]|e2];
    try done; [|by subst].
  destruct H as [_ H]. apply same_but_status_fields in H.
  exists v2. destruct H as (-> & -> & -> & -> & ->). done.
Qed.

Lemma step_ignores_status_witness :
  (∃ vm'', step (set_state READY halted_out) = Ok (tt, vm'') ∧ ip vm'' = 2) ∧
  run 7 halted_out = Some (Ok halted_out).
Proof.
  destruct (step_ignores_status halted_out READY) as [H1 H2]. split.
  - destruct H1 as (vm'' & Hstep & _ & _ & Hip & _). exists vm''. split; [exact Hstep|exact Hip].
  - apply H2. discriminate.
Defined.

(** ** Single instructions *)

Lemma grab_set_ip vm j x k :
  getitem (memory vm) j = Ok x → x ≤ 32775 → k = j + 1 →
  grab (set_ip j vm) = Ok (x, set_ip k vm).
Proof. intros Hget Hle ->. by rewrite (grab_ok (set_ip j vm) x). Qed.

Lemma unread_head f c s :
  unread f = c :: s →
  sio_read1 f = (Some c, mkStringIO (buf f) (S (pos f))) ∧
  unread (mkStringIO (buf f) (S (pos f))) = s.
Proof.
  intros H.
  assert (Hc : buf f !! pos f = Some c).
  { pose proof (lookup_drop (buf f) (pos f) 0) as E.
    rewrite Nat.add_0_r in E. rewrite <- E. unfold unread in H. by rewrite H. }
  split.
  - unfold sio_read1. by rewrite Hc.
  - rewrite (unread_cons f c Hc) in H. congruence.
Qed.

(** C3: when the next instruction is [in a] and no unread input is left,
    [step] sets the status to INPUT_BLOCKED and leaves ip (and everything
    else) as it was before the instruction, the two reads being undone by
    [ip -= 2]; once input is supplied the status is READY, the next decoded
    opcode is the same [in], and the step stores the first supplied
    character at [a] and moves past the instruction. *)
Theorem in_blocks_and_rewinds (vm : Vm) (a : Z) :
  getitem (memory vm) (ip vm) = Ok 20 →
  getitem (memory vm) (ip vm + 1) = Ok a → a ≤ 32775 →
  unread (reader vm) = [] →
  step vm = Ok (tt, set_state INPUT_BLOCKED vm) ∧
  ip (set_state INPUT_BLOCKED vm) = ip vm + 2 - 2 ∧
  ip (set_state INPUT_BLOCKED vm) = ip vm ∧
  ∀ c s mem', setitem (memory vm) a c = Ok mem' →
    let vm1 := input (c :: s) (set_state INPUT_BLOCKED vm) in
    state vm1 = READY ∧
    grab vm1 = Ok (20, set_ip (ip vm + 1) vm1) ∧
    ∃ vm2, step vm1 = Ok (tt, vm2) ∧ memory vm2 = mem' ∧
           ip vm2 = ip vm + 2 ∧ state vm2 = READY ∧
           unread (reader vm2) = s.
Proof.
  intros Hop Ha Hle Hq. split; [|split; [unfold set_state; simpl; lia|split; [reflexivity|]]].
  - unfold step, bind. rewrite (grab_ok vm 20 Hop) by lia. cbv beta iota.
    rewrite (grab_set_ip vm (ip vm + 1) a (ip vm + 2)) by (assumption || lia).
    cbv beta iota. unfold gets, modify, sio_read1. simpl.
    apply unread_nil in Hq. rewrite Hq. simpl.
    replace (ip vm + 2 - 2) with (ip vm) by lia. by destruct vm.
  - intros c s mem' Hset vm1.
    assert (Hr : unread (reader vm1) = c :: s) by (by apply write_at_end).
    destruct (unread_head _ _ _ Hr) as [Hread Hrest].
    split; [reflexivity|]. split; [by apply (grab_ok vm1 20)|].
    unfold step, bind. rewrite (grab_ok vm1 20 Hop) by lia. cbv beta iota.
    rewrite (grab_set_ip vm1 (ip vm1 + 1) a (ip vm1 + 2)) by (assumption || lia).
    cbv beta iota. unfold gets, modify.
    change (reader (set_ip (ip vm1 + 2) vm1)) with (reader vm1). rewrite Hread.
    unfold store, bind, gets, lift, modify.
    change (memory (set_reader _ (set_ip _ vm1))) with (memory vm). rewrite Hset.
    eexists. split; [reflexivity|]. simpl. repeat split. exact Hrest.
Qed.

Lemma in_blocks_and_rewinds_witness :
  step (Vm_init echo_prog [] 0)
  = Ok (tt, set_state INPUT_BLOCKED (Vm_init echo_prog [] 0)).
Proof.
  apply (in_blocks_and_rewinds (Vm_init echo_prog [] 0) 4);
    [reflexivity | reflexivity | simpl; lia | reflexivity].
Defined.

(** C4, as stated, fails in its last words: [ret] on an empty stack does
    change something besides the status, the ip has moved past the opcode. *)
Lemma ret_empty_moves_ip :
  ∃ vm', step (Vm_init [18] [] 0) = Ok (tt, vm') ∧
         state vm' = HALTED ∧ ip (Vm_init [18] [] 0) = 0 ∧ ip vm' = 1.
Proof. eexists. vm_compute. repeat split. Qed.

(** C4 (amended): [pop] with an empty stack raises: the exception is
    Python's IndexError for a pop from an empty list whenever the operand
    can be decoded, a class apart from the ValueError of an invalid
    number.  [ret] with an empty stack raises nothing: it sets the status to
    HALTED and, apart from the ip having moved past the opcode, changes
    nothing. *)
Theorem pop_fatal_ret_halts (vm : Vm) :
  (getitem (memory vm) (ip vm) = Ok 3 → stack vm = [] →
     (∃ e, step vm = Raise e) ∧
     (∀ a, getitem (memory vm) (ip vm + 1) = Ok a → a ≤ 32775 →
        step vm = Raise PopFromEmptyList) ∧
     class_of PopFromEmptyList = IndexError ∧
     (∀ n, class_of PopFromEmptyList ≠ class_of (InvalidNumber n))) ∧
  (getitem (memory vm) (ip vm) = Ok 18 → stack vm = [] →
     step vm = Ok (tt, set_state HALTED (set_ip (ip vm + 1) vm))).
Proof.
  split.
  - intros Hop Hst.
    assert (Hpop : ∀ a, getitem (memory vm) (ip vm + 1) = Ok a → a ≤ 32775 →
                        step vm = Raise PopFromEmptyList).
    { intros a Ha Hle. unfold step, bind. rewrite (grab_ok vm 3 Hop) by lia.
      cbv beta iota.
      rewrite (grab_set_ip vm (ip vm + 1) a (ip vm + 2)) by (assumption || lia).
      cbv beta iota. unfold pop, bind, gets, lift. simpl. by rewrite Hst. }
    split; [|split; [exact Hpop|split; [reflexivity|discriminate]]].
    destruct (getitem (memory vm) (ip vm + 1)) as [a|e] eqn:Ha.
    + destruct (Z.le_gt_cases a 32775) as [Hle|Hgt]; [eauto|].
      exists (InvalidNumber a). unfold step, bind.
      rewrite (grab_ok vm 3 Hop) by lia. cbv beta iota.
      unfold grab, bind, gets, lift, modify. simpl. rewrite Ha.
      destruct (Z.leb_spec a 32775); [lia|reflexivity].
    + exists e. unfold step, bind. rewrite (grab_ok vm 3 Hop) by lia.
      cbv beta iota. unfold grab, bind, gets, lift. simpl. by rewrite Ha.
  - intros Hop Hst. unfold step, bind. rewrite (grab_ok vm 18 Hop) by lia.
    cbv beta iota. unfold gets. simpl. by rewrite Hst.
Qed.

Lemma pop_fatal_ret_halts_witness :
  step (Vm_init [3; 0] [] 0) = Raise PopFromEmptyList ∧
  step (Vm_init [18] [] 0)
  = Ok (tt, set_state HALTED (set_ip 1 (Vm_init [18] [] 0))).
Proof.
  split.
  - destruct (pop_fatal_ret_halts (Vm_init [3; 0] [] 0)) as [H _].
    destruct (H eq_refl eq_refl) as (_ & Hpop & _).
    apply (Hpop 0); [reflexivity | simpl; lia].
  - destruct (pop_fatal_ret_halts (Vm_init [18] [] 0)) as [_ H].
    exact (H eq_refl eq_refl).
Defined.

(** C9: an opcode value in 22..32775 matches no case of [step]: nothing is
    raised, the ip has moved past the opcode and memory, stack, status and
    both buffers are as before. *)
Theorem unknown_opcode_skips (vm : Vm) (op : Z) :
  getitem (memory vm) (ip vm) = Ok op → 22 ≤ op ≤ 32775 →
  step vm = Ok (tt, set_ip (ip vm + 1) vm) ∧
  memory (set_ip (ip vm + 1) vm) = memory vm ∧
  stack (set_ip (ip vm + 1) vm) = stack vm ∧
  state (set_ip (ip vm + 1) vm) = state vm ∧
  reader (set_ip (ip vm + 1) vm) = reader vm ∧
  writer (set_ip (ip vm + 1) vm) = writer vm.
Proof.
  intros Hop Hrange. split; [|done].
  unfold step, bind. rewrite (grab_ok vm op Hop) by lia. cbv beta iota.
  destruct op as [|p|p]; try lia. case_opcode p.
Qed.

Lemma unknown_opcode_skips_witness :
  step (Vm_init [22; 7] [5] 0) = Ok (tt, set_ip 1 (Vm_init [22; 7] [5] 0)).
Proof.
  apply (unknown_opcode_skips (Vm_init [22; 7] [5] 0) 22); [reflexivity | lia].
Defined.

(** [val] only reads the memory. *)
Lemma val_frame i x vm vm' :
  memory vm' = memory vm → val i vm = Ok (x, vm) → val i vm' = Ok (x, vm').
Proof.
  unfold val. intros Hm.
  destruct (i <=? 32767); [unfold ret; by intros [= ->]|].
  destruct (i <=? 32775); [|done].
  unfold bind, gets, lift. rewrite Hm.
  destruct (getitem (memory vm) i); [by intros [= ->]|done].
Qed.

(** C10: [mod] whose divisor resolves to 0 raises Python's
    ZeroDivisionError, which is neither the ValueError of an invalid number
    nor the IndexError of a pop from an empty stack. *)
Theorem mod_by_zero_raises (vm : Vm) (a b c x : Z) :
  getitem (memory vm) (ip vm) = Ok 11 →
  getitem (memory vm) (ip vm + 1) = Ok a → a ≤ 32775 →
  getitem (memory vm) (ip vm + 2) = Ok b → b ≤ 32775 →
  getitem (memory vm) (ip vm + 3) = Ok c → c ≤ 32775 →
  val b vm = Ok (x, vm) → val c vm = Ok (0, vm) →
  step vm = Raise ModuloByZero ∧
  class_of ModuloByZero = ZeroDivisionError ∧
  (∀ n, class_of ModuloByZero ≠ class_of (InvalidNumber n)) ∧
  class_of ModuloByZero ≠ class_of PopFromEmptyList.
Proof.
  intros Hop Ha Hale Hb Hble Hc Hcle Hvb Hvc.
  split; [|split; [reflexivity|split; [discriminate|discriminate]]].
  unfold step, bind. rewrite (grab_ok vm 11 Hop) by lia. cbv beta iota.
  rewrite (grab_set_ip vm (ip vm + 1) a (ip vm + 2)) by (assumption || lia).
  cbv beta iota.
  rewrite (grab_set_ip vm (ip vm + 2) b (ip vm + 3)) by (assumption || lia).
  cbv beta iota.
  rewrite (grab_set_ip vm (ip vm + 3) c (ip vm + 4)) by (assumption || lia).
  cbv beta iota.
  rewrite (val_frame b x vm (set_ip (ip vm + 4) vm) eq_refl Hvb). cbv beta iota.
  rewrite (val_frame c 0 vm (set_ip (ip vm + 4) vm) eq_refl Hvc). cbv beta iota.
  reflexivity.
Qed.

Lemma mod_by_zero_raises_witness :
  step (Vm_init [11; 0; 5; 0] [] 0) = Raise ModuloByZero.
Proof.
  apply (mod_by_zero_raises (Vm_init [11; 0; 5; 0] [] 0) 0 5 0 5);
    first [reflexivity | simpl; lia].
Defined.

(** ** Snapshots *)

(** C6: restoring from a captured snapshot gives a machine with the
    snapshot's memory, stack and ip, status READY and two empty buffers; and
    two machines with the same memory, stack and ip have equal snapshots,
    whatever their status and buffers. *)
Theorem snapshot_restore_and_equality (vm vm' : Vm) :
  from_dump (dump vm) = Vm_init (memory vm) (stack vm) (ip vm) ∧
  memory (from_dump (dump vm)) = (dump vm).1.1 ∧
  stack (from_dump (dump vm)) = (dump vm).1.2 ∧
  ip (from_dump (dump vm)) = (dump vm).2 ∧
  state (from_dump (dump vm)) = READY ∧
  sio_getvalue (reader (from_dump (dump vm))) = [] ∧
  unread (reader (from_dump (dump vm))) = [] ∧
  sio_getvalue (writer (from_dump (dump vm))) = [] ∧
  (memory vm = memory vm' → stack vm = stack vm' → ip vm = ip vm' →
   dump vm = dump vm' ∧ bool_decide (dump vm = dump vm') = true).
Proof.
  repeat split; try reflexivity.
  - unfold dump. congruence.
  - apply bool_decide_eq_true. unfold dump. congruence.
Qed.

Lemma snapshot_restore_and_equality_witness :
  dump halted_out = dump (input [NL] (Vm_init [19; 65] [] 0)).
Proof.
  destruct (snapshot_restore_and_equality halted_out
              (input [NL] (Vm_init [19; 65] [] 0))) as (_ & _ & _ & _ & _ & _ & _ & _ & H).
  apply H; reflexivity.
Defined.

(** ** The range of the memory cells *)

(** C5, as stated, fails twice: a loaded word is any 16-bit number, and
    [pop] stores whatever is on the stack. *)
Lemma cell_above_15_bits :
  memory (from_file [Byte.xff; Byte.xff]) !! 0%nat = Some 65535 ∧
  ¬ cells_below 15 (memory (from_file [Byte.xff; Byte.xff])) ∧
  cells_below 15 (memory (Vm_init [3; 0] [40000] 0)) ∧
  ∃ vm', step (Vm_init [3; 0] [40000] 0) = Ok (tt, vm') ∧
         memory vm' = [40000; 0] ∧ ¬ cells_below 15 (memory vm').
Proof.
  assert (H0 : memory (from_file [Byte.xff; Byte.xff]) !! 0%nat = Some 65535)
    by (vm_compute; reflexivity).
  split; [exact H0|]. split.
  { intros H. pose proof (Forall_lookup_1 _ _ _ _ H H0) as Hx. simpl in Hx. lia. }
  split.
  { repeat constructor; simpl; lia. }
  eexists. split; [vm_compute; reflexivity|]. split; [reflexivity|].
  simpl. intros H. apply Forall_cons_1 in H as [H _]. lia.
Qed.

Lemma byteZ_range b : 0 ≤ byteZ b ≤ 255.
Proof. unfold byteZ. pose proof (Byte.to_N_bounded b). lia. Qed.

Lemma read_words_below n : ∀ bs, (length bs ≤ n)%nat → cells_below 16 (read_words bs).
Proof.
  assert (E : 2 ^ 16 = 65536) by reflexivity.
  unfold cells_below. rewrite E.
  induction n as [|n IH]; intros [|b0 [|b1 rest]] Hlen; simpl in *;
    try (constructor; fail); try lia.
  - pose proof (byteZ_range b0). repeat constructor; lia.
  - pose proof (byteZ_range b0). pose proof (byteZ_range b1).
    constructor; [lia|]. apply IH. lia.
Qed.

Lemma from_file_below file : cells_below 16 (memory (from_file file)).
Proof.
  unfold from_file, Vm_init. simpl. apply Forall_app. split.
  - by apply (read_words_below (length file)).
  - apply Forall_replicate. lia.
Qed.

Lemma bind_inv {A B} (c : M A) (k : A → M B) vm r vm' :
  bind c k vm = Ok (r, vm') →
  ∃ a vm1, c vm = Ok (a, vm1) ∧ k a vm1 = Ok (r, vm').
Proof. unfold bind. destruct (c vm) as [[a vm1]|e]; [eauto|discriminate]. Qed.

Lemma push_inv vm x u vm' :
  push x vm = Ok (u, vm') → vm' = set_stack (stack vm ++ [x]) vm.
Proof. unfold push, bind, gets, modify. by intros [= _ <-]. Qed.

Lemma lift_inv {A} (r : result A) vm a vm' :
  lift r vm = Ok (a, vm') → r = Ok a ∧ vm' = vm.
Proof. unfold lift. destruct r; [by intros [= <- <-]|done]. Qed.

Lemma gets_inv {A} (f : Vm → A) vm a vm' :
  gets f vm = Ok (a, vm') → a = f vm ∧ vm' = vm.
Proof. unfold gets. by intros [= <- <-]. Qed.

Lemma modify_inv f vm u vm' : modify f vm = Ok (u, vm') → vm' = f vm.
Proof. unfold modify. by intros [= _ <-]. Qed.

Lemma ret_inv {A} (a : A) vm b vm' : ret a vm = Ok (b, vm') → b = a ∧ vm' = vm.
Proof. unfold ret. by intros [= <- <-]. Qed.

Section Range.
Variable k : Z.
Hypothesis Hk : 15 ≤ k.

Lemma pow15_le : 2 ^ 15 ≤ 2 ^ k.
Proof. apply Z.pow_le_mono_r; lia. Qed.

Lemma getitem_below (l : list Z) i x :
  cells_below k l → getitem l i = Ok x → 0 ≤ x < 2 ^ k.
Proof.
  intros Hl. unfold getitem. destruct (py_index (length l) i) as [n|]; [|done].
  destruct (l !! n) as [y|] eqn:E; [|done]. intros [= <-].
  exact (Forall_lookup_1 _ _ _ _ Hl E).
Qed.

Lemma grab_below vm x vm' :
  cells_below k (memory vm) → grab vm = Ok (x, vm') →
  0 ≤ x < 2 ^ k ∧ vm' = set_ip (ip vm + 1) vm.
Proof.
  intros Hm H. apply grab_inv in H as (Hget & _ & ->).
  split; [by eapply getitem_below|done].
Qed.

Lemma val_below vm i x vm' :
  cells_below k (memory vm) → 0 ≤ i < 2 ^ k → val i vm = Ok (x, vm') →
  vm' = vm ∧ 0 ≤ x < 2 ^ k.
Proof.
  intros Hm Hi. unfold val.
  destruct (i <=? 32767); [unfold ret; by intros [= <- <-]|].
  destruct (i <=? 32775); [|done].
  unfold bind, gets, lift.
  destruct (getitem (memory vm) i) as [y|] eqn:E; [|done].
  intros [= <- <-]. split; [done|by eapply getitem_below].
Qed.

Lemma store_below vm a x u vm' :
  cells_below k (memory vm) → 0 ≤ x < 2 ^ k → store a x vm = Ok (u, vm') →
  cells_below k (memory vm').
Proof.
  intros Hm Hx. unfold store, bind, gets, lift, modify, setitem.
  destruct (py_index (length (memory vm)) a) as [n|]; [|done].
  intros [= _ <-]. simpl. by apply Forall_insert.
Qed.

Lemma pop_below vm x vm' :
  cells_below k (stack vm) → pop vm = Ok (x, vm') →
  0 ≤ x < 2 ^ k ∧ vm' = set_stack (removelast (stack vm)) vm.
Proof.
  intros Hs. unfold pop, bind, gets, lift, modify, ret, list_pop.
  destruct (last (stack vm)) as [y|] eqn:E; [|done].
  intros [= <- <-]. split; [|done]. simpl.
  apply last_Some in E as [l' E]. rewrite E in Hs.
  apply Forall_app in Hs as [_ Hs]. by apply Forall_cons_1 in Hs as [Hs _].
Qed.

Lemma read1_below f c f' :
  cells_below k (unread f) → sio_read1 f = (Some c, f') →
  0 ≤ c < 2 ^ k ∧ f' = mkStringIO (buf f) (S (pos f)).
Proof.
  intros Hq. unfold sio_read1. destruct (buf f !! pos f) as [y|] eqn:E; [|done].
  intros [= <- <-]. split; [|done].
  rewrite (unread_cons f y E) in Hq. by apply Forall_cons_1 in Hq as [Hq _].
Qed.

Lemma land_below x y : 0 ≤ x < 2 ^ k → 0 ≤ Z.land x y < 2 ^ k.
Proof.
  intros Hx. assert (0 ≤ Z.land x y) by (apply Z.land_nonneg; lia).
  split; [done|]. apply Z.bounded_iff_bits_nonneg; [lia|done|].
  intros l Hl. rewrite Z.land_spec.
  rewrite (proj1 (Z.bounded_iff_bits_nonneg k x ltac:(lia) ltac:(lia))); [done|lia|done].
Qed.

Lemma lor_below x y :
  0 ≤ x < 2 ^ k → 0 ≤ y < 2 ^ k → 0 ≤ Z.lor x y < 2 ^ k.
Proof.
  intros Hx Hy. assert (0 ≤ Z.lor x y) by (apply Z.lor_nonneg; lia).
  split; [done|]. apply Z.bounded_iff_bits_nonneg; [lia|done|].
  intros l Hl. rewrite Z.lor_spec.
  rewrite (proj1 (Z.bounded_iff_bits_nonneg k x ltac:(lia) ltac:(lia))); [|lia|done].
  rewrite (proj1 (Z.bounded_iff_bits_nonneg k y ltac:(lia) ltac:(lia))); [done|lia|done].
Qed.

Lemma not15_below x : 0 ≤ Z.land (Z.shiftl 1 15 - 1) (Z.lnot x) < 2 ^ k.
Proof.
  pose proof pow15_le.
  assert (0 ≤ Z.land (Z.shiftl 1 15 - 1) (Z.lnot x) < 2 ^ 15); [|lia].
  change (Z.shiftl 1 15 - 1) with (Z.ones 15). rewrite Z.land_comm, Z.land_ones by lia.
  apply Z.mod_pos_bound. lia.
Qed.

Lemma mod15_below x : 0 ≤ x `mod` 32768 < 2 ^ k.
Proof. pose proof pow15_le. pose proof (Z.mod_pos_bound x 32768). lia. Qed.

Lemma mod_below x y : 0 ≤ x → 0 ≤ y < 2 ^ k → y ≠ 0 → 0 ≤ x `mod` y < 2 ^ k.
Proof. intros Hx Hy Hne. pose proof (Z.mod_pos_bound x y). lia. Qed.

Lemma bool_int_below b : 0 ≤ bool_int b < 2 ^ k.
Proof. pose proof pow15_le. destruct b; simpl; lia. Qed.
End Range.

Ltac by_conv :=
  first [ assumption
        | match goal with
          | H : cells_below _ _ |- cells_below _ _ => exact H
          end ].

(** One inversion step on a successful run of a piece of [step]. *)
Ltac range_inv k Hk :=
  match goal with
  | H : grab _ = Ok _ |- _ =>
      apply (grab_below k) in H; [destruct H as [? ->] | by_conv]
  | H : val _ _ = Ok _ |- _ =>
      apply (val_below k) in H; [destruct H as [-> ?] | by_conv | by_conv]
  | H : pop _ = Ok _ |- _ =>
      apply (pop_below k) in H;
      [ destruct H as [? ->]
      | first [ by_conv
              | match goal with
                | E : stack _ = _ |- _ => unfold set_ip; simpl; rewrite E; by_conv
                end ] ]
  | H : push _ _ = Ok _ |- _ => apply push_inv in H; subst
  | H : gets _ _ = Ok _ |- _ => apply gets_inv in H; destruct H as [-> ->]
  | H : modify _ _ = Ok _ |- _ => apply modify_inv in H; subst
  | H : ret _ _ = Ok _ |- _ => apply ret_inv in H; destruct H as [_ ->]
  | H : raise _ _ = Ok _ |- _ => discriminate H
  | H : lift (getitem _ _) _ = Ok _ |- _ =>
      apply lift_inv in H; destruct H as [H ->];
      apply (getitem_below k) in H; [|by_conv]
  | H : lift _ _ = Ok _ |- _ => apply lift_inv in H; destruct H as [? ->]
  | H : sio_read1 _ = (Some _, _) |- _ =>
      apply (read1_below k) in H; [destruct H as [? ->] | by_conv]
  | H : store _ _ _ = Ok _ |- cells_below _ _ =>
      apply (store_below k _ _ _ _ _) in H;
      [ exact H
      | by_conv
      | first [ by_conv | apply (bool_int_below k Hk) | apply (mod15_below k Hk)
              | apply (not15_below k Hk)
              | apply land_below; first [exact Hk | by_conv]
              | apply lor_below; first [exact Hk | by_conv]
              | apply mod_below;
                first [exact Hk | by_conv | lia | by apply Z.eqb_neq] ] ]
  | H : (if ?b then _ else _) _ = Ok _ |- _ => destruct b eqn:?
  | H : (match ?l with [] => _ | _ :: _ => _ end) _ = Ok _ |- _ =>
      let E := fresh "E" in destruct l eqn:E
  | H : (let (_, _) := ?p in _) _ = Ok _ |- _ => destruct p as [[?|] ?] eqn:?
  | H : bind _ _ _ = Ok _ |- _ =>
      apply bind_inv in H; destruct H as (? & ? & ? & H); cbv beta in H
  end.

Lemma step_keeps_cells k vm vm' :
  15 ≤ k → cells_below k (memory vm) → cells_below k (stack vm) →
  cells_below k (unread (reader vm)) →
  step vm = Ok (tt, vm') → cells_below k (memory vm').
Proof.
  intros Hk Hm Hs Hq H. unfold step in H.
  apply bind_inv in H as (op & vm1 & Hg & H).
  apply (grab_below k) in Hg as [Hop ->]; [|done].
  destruct op as [|p|p]; [| |lia].
  - repeat range_inv k Hk; by_conv.
  - repeat (destruct p as [p|p|]; try solve [repeat range_inv k Hk; by_conv]).
Qed.

(** C5 (amended): right after loading, every memory cell is a 16-bit
    number, in 0..65535; and for every k >= 15, an instruction that starts
    with all memory cells, all stack entries and all unread input characters
    in [0, 2^k) and raises nothing leaves all memory cells in [0, 2^k). *)
Theorem cells_stay_in_range :
  (∀ file, cells_below 16 (memory (from_file file))) ∧
  (∀ k vm vm',
     15 ≤ k → cells_below k (memory vm) → cells_below k (stack vm) →
     cells_below k (unread (reader vm)) →
     step vm = Ok (tt, vm') → cells_below k (memory vm')).
Proof. split; [exact from_file_below | exact step_keeps_cells]. Qed.

Lemma cells_stay_in_range_witness :
  cells_below 15 (memory (set_ip 4 (Vm_init [32766; 0; 32767; 32767] [] 0))).
Proof.
  destruct cells_stay_in_range as [_ H].
  apply (H 15 (Vm_init [9; 0; 32767; 32767] [] 0)).
  - lia.
  - unfold cells_below. simpl. repeat constructor; lia.
  - constructor.
  - constructor.
  - vm_compute. reflexivity.
Defined.

(** ** The room parser *)

(** C7, as stated, fails: a title line with the leading delimiter but
    without the trailing one is accepted. *)
Lemma unclosed_title_accepted :
  title_line foyer_text = Some (of_string "== Foyer") ∧
  endswith (of_string " ==") (of_string "== Foyer") = false ∧
  parse_room foyer_text
  = Ok (of_string "Foyer", of_string "A hall.", [], [of_string "north"]).
Proof. repeat split; vm_compute; reflexivity. Qed.

Lemma strip_wrapped_title t :
  removesuffix (of_string " ==")
    (removeprefix (of_string "== ") (of_string "== " ++ t ++ of_string " =="))
  = t.
Proof.
  change (of_string "== ") with [61; 61; 32].
  change (of_string " ==") with [32; 61; 61].
  assert (Hp : removeprefix [61; 61; 32] ([61; 61; 32] ++ t ++ [32; 61; 61])
               = t ++ [32; 61; 61]) by reflexivity.
  rewrite Hp. unfold removesuffix, endswith. rewrite reverse_app.
  assert (Hs : startswith (reverse [32; 61; 61]) (reverse [32; 61; 61] ++ reverse t)
               = true) by reflexivity.
  rewrite Hs, bool_decide_eq_false_2 by done.
  apply take_app_length'. rewrite length_app. simpl. lia.
Qed.

(** C7 (amended): [parse_room] checks the leading delimiter only.  When
    it succeeds, the title line starts with [==] and the returned title is
    that line without a leading [== ] and without a trailing [ ==], where
    present; a title line that does not start with [==] makes it fail with
    an assertion error; and for a title line [== T ==] the returned title is
    exactly [T]. *)
Theorem parse_room_title :
  (∀ s title text interests exits,
     parse_room s = Ok (title, text, interests, exits) →
     ∃ line, title_line s = Some line ∧
             startswith (of_string "==") line = true ∧
             title = removesuffix (of_string " ==")
                       (removeprefix (of_string "== ") line)) ∧
  (∀ s line,
     title_line s = Some line → startswith (of_string "==") line = false →
     parse_room s = Raise AssertionFailed ∧
     class_of AssertionFailed = AssertionError) ∧
  (∀ t, removesuffix (of_string " ==")
          (removeprefix (of_string "== ") (of_string "== " ++ t ++ of_string " =="))
        = t).
Proof.
  split; [|split; [|exact strip_wrapped_title]].
  - intros s title text interests exits. unfold parse_room, title_line.
    destruct (getitem (split [NL; NL] s) 0) as [p0|]; [|done].
    destruct (assert (bool_decide (p0 = []))); [|done].
    destruct (getitem (split [NL; NL] s) 1) as [p1|]; [|done].
    destruct (splitlines p1) as [|line [|text' [|]]]; try done.
    destruct (startswith (of_string "==") line) eqn:Hstart; [|done].
    simpl.
    match goal with
    | |- match ?l with _ => _ end = _ → _ => destruct l as [[i e]|]; [|done]
    end.
    destruct (getitem (split [NL; NL] s) (-1)) as [plast|]; [|done].
    destruct (assert (bool_decide (plast = prompt))); [|done].
    intros [= <- <- <- <-]. eauto.
  - intros s line. unfold parse_room, title_line.
    destruct (getitem (split [NL; NL] s) 0) as [p0|e] eqn:E0.
    2:{ unfold getitem in E0. destruct (split [NL; NL] s) eqn:Es; [|done].
        unfold split in Es. destruct s; simpl in Es; [done|].
        destruct (startswith [NL; NL] (z :: s)); done. }
    destruct (assert (bool_decide (p0 = []))) eqn:Ea.
    2:{ intros _ _. unfold assert in Ea. destruct (bool_decide (p0 = [])); [done|].
        by injection Ea as <-. }
    destruct (getitem (split [NL; NL] s) 1) as [p1|]; [|done].
    destruct (splitlines p1) as [|line' [|text' [|]]]; try done.
    intros [= ->] ->. done.
Qed.

Lemma parse_room_title_witness :
  parse_room ([NL; NL] ++ of_string "Foyer" ++ [NL] ++ of_string "A hall.")
  = Raise AssertionFailed.
Proof.
  destruct parse_room_title as (_ & H & _).
  apply (H _ (of_string "Foyer")); vm_compute; reflexivity.
Defined.

(** ** The explorer *)

Lemma explorer_inv_init d0 : explorer_inv (explorer_init d0).
Proof.
  split; [|split]; simpl.
  - intros d ->%list_elem_of_singleton. by apply elem_of_singleton_2.
  - apply NoDup_singleton.
  - done.
Qed.

Lemma explorer_inv_popleft ex d q' :
  explorer_inv ex → q ex = d :: q' →
  explorer_inv (mkExplorer (seen ex) q' (enqueued ex)).
Proof.
  intros (Hsub & Hnd & Hsuf) Hq. split; [|split]; simpl; [done|done|].
  rewrite Hq in Hsuf. by eapply suffix_cons_l.
Qed.

Lemma try_exit_cases fuel d ex exit ex' :
  try_exit fuel d ex exit = Some (Ok ex') →
  ex' = ex ∨
  ∃ vm, run fuel (input (exit ++ [NL]) (from_dump d)) = Some (Ok vm) ∧
        (dump vm ∉ seen ex) ∧
        ex' = mkExplorer ({[ dump vm ]} ∪ seen ex) (q ex ++ [dump vm])
                (enqueued ex ++ [dump vm]).
Proof.
  unfold try_exit. case_bool_decide; [intros [= <-]; by left|].
  destruct (run fuel (input (exit ++ [NL]) (from_dump d))) as [[vm|e]|]; try done.
  case_bool_decide; [intros [= <-]; by left|].
  intros [= <-]. right. eauto.
Qed.

Lemma explorer_inv_exit fuel d ex exit ex' :
  explorer_inv ex → try_exit fuel d ex exit = Some (Ok ex') → explorer_inv ex'.
Proof.
  intros (Hsub & Hnd & Hsuf) H.
  apply try_exit_cases in H as [->|(vm & _ & Hnew & ->)]; [done|].
  split; [|split]; simpl.
  - intros x [Hx| ->%list_elem_of_singleton]%elem_of_app; [|set_solver].
    specialize (Hsub x Hx). set_solver.
  - apply NoDup_app. split; [done|]. split; [|apply NoDup_singleton].
    intros x Hx ->%list_elem_of_singleton. by apply Hnew, Hsub.
  - by apply suffix_app.
Qed.

Lemma reachable_inv fuel d0 ex : reachable fuel d0 ex → explorer_inv ex.
Proof.
  induction 1 as [|ex d q' _ IH Hq|ex d exit ex' _ IH Hexit].
  - apply explorer_inv_init.
  - by eapply explorer_inv_popleft.
  - by eapply explorer_inv_exit.
Qed.

(** The loop functions only pass through reachable states. *)
Lemma for_exits_reachable fuel d0 d exits : ∀ ex ex',
  reachable fuel d0 ex → for_exits fuel d ex exits = Some (Ok ex') →
  reachable fuel d0 ex'.
Proof.
  induction exits as [|exit exits IH]; intros ex ex' Hr; simpl.
  - by intros [= <-].
  - destruct (try_exit fuel d ex exit) as [[ex1|e]|] eqn:E; try done.
    apply IH. by eapply reach_exit.
Qed.

Lemma explore_node_reachable fuel resume d0 d ex ex' :
  reachable fuel d0 ex → explore_node fuel resume d ex = Some (Ok ex') →
  reachable fuel d0 ex'.
Proof.
  intros Hr. unfold explore_node.
  destruct (run fuel _) as [[vm|e]|]; try done.
  destruct (output vm) as [out vm1].
  destruct (parse_room out) as [[[[title text] interests] exits]|e]; [|done].
  destruct (if anomaly title interests exits then resume vm1 else Some (Ok ()))
    as [[[]|e]|]; try done.
  by apply for_exits_reachable.
Qed.

Lemma explore_reachable fuel resume d0 n : ∀ ex ex',
  reachable fuel d0 ex → explore fuel resume n ex = Some (Ok ex') →
  reachable fuel d0 ex'.
Proof.
  induction n as [|n IH]; intros ex ex' Hr; simpl.
  - destruct (q ex); [by intros [= <-]|done].
  - destruct (q ex) as [|d q'] eqn:Hq; [by intros [= <-]|].
    destruct (explore_node fuel resume d _) as [[ex1|e]|] eqn:E; try done.
    apply IH. eapply explore_node_reachable; [|exact E].
    by eapply reach_popleft.
Qed.

Lemma main_reachable fuel resume n file ex :
  main fuel resume n file = Some (Ok ex) → ∃ d0, reachable fuel d0 ex.
Proof.
  unfold main. destruct (run fuel _) as [[vm|e]|]; try done.
  destruct (output vm) as [out vm1]. intros E. exists (dump vm1).
  eapply explore_reachable; [apply reach_init | exact E].
Qed.

(** C8: in every state of the explorer's loop, each snapshot that was ever
    put on the queue (so each one still on it) is in the visited set, no
    snapshot was put on the queue twice, and the queue holds the last
    enqueued snapshots in order; a captured snapshot that is already in the
    visited set leaves the visited set and the queue as they are. *)
Theorem explorer_never_revisits (fuel : nat) (d0 : Dump) (ex : Explorer) :
  reachable fuel d0 ex →
  (∀ d, d ∈ enqueued ex → d ∈ seen ex) ∧
  (∀ d, d ∈ q ex → d ∈ seen ex) ∧
  NoDup (enqueued ex) ∧
  NoDup (q ex) ∧
  q ex `suffix_of` enqueued ex ∧
  (∀ d exit vm,
     run fuel (input (exit ++ [NL]) (from_dump d)) = Some (Ok vm) →
     dump vm ∈ seen ex → try_exit fuel d ex exit = Some (Ok ex)).
Proof.
  intros (Hsub & Hnd & [pre Hsuf])%reachable_inv.
  split; [done|]. split; [|split; [done|split; [|split; [by exists pre|]]]].
  - intros d Hd. apply Hsub. rewrite Hsuf. apply elem_of_app. by right.
  - rewrite Hsuf in Hnd. by apply NoDup_app in Hnd as (_ & _ & Hnd).
  - intros d exit vm Hrun Hseen. unfold try_exit.
    case_bool_decide; [done|]. rewrite Hrun. by rewrite bool_decide_eq_true_2.
Qed.

Lemma explorer_never_revisits_witness :
  NoDup (enqueued (explorer_init room_dump)) ∧
  try_exit 500 room_dump (explorer_init room_dump) (of_string "north")
  = Some (Ok (explorer_init room_dump)).
Proof.
  destruct (explorer_never_revisits 500 room_dump (explorer_init room_dump))
    as (_ & _ & Hnd & _ & _ & Hskip).
  - apply reach_init.
  - split; [exact Hnd|]. apply (Hskip room_dump (of_string "north") after_north).
    + vm_compute. reflexivity.
    + change (dump after_north ∈ ({[ room_dump ]} : gset Dump)).
      apply elem_of_singleton_2. vm_compute. reflexivity.
Defined.


(** * Further properties of the code *)

(** ** Loading *)

Lemma read_words_length n : ∀ bs,
  (length bs ≤ n)%nat → length (read_words bs) = ((length bs + 1) / 2)%nat.
Proof.
  induction n as [|n IH]; intros [|b0 [|b1 rest]] Hlen;
    cbn [read_words length] in *; try reflexivity; try lia.
  rewrite IH by lia.
  replace (S (S (length rest)) + 1)%nat with (1 * 2 + (length rest + 1))%nat by lia.
  rewrite Nat.div_add_l by lia. lia.
Qed.

(** X1: the loaded memory has 2^15 + 8 = 32776 cells, or as many cells as
    the file has words when the file has more than that: nothing is cut
    off. *)
Theorem from_file_length (file : list byte) :
  Z.of_nat (length (memory (from_file file)))
  = Z.max 32776 (Z.of_nat ((length file + 1) / 2)).
Proof.
  unfold from_file, Vm_init. simpl memory.
  rewrite length_app, length_replicate, (read_words_length (length file)) by lia.
  change (2 ^ 15) with 32768. lia.
Qed.

Lemma read_words_lookup i : ∀ file,
  read_words file !! i =
  match file !! (2 * i)%nat, file !! (2 * i + 1)%nat with
  | Some b0, Some b1 => Some (byteZ b0 + 256 * byteZ b1)
  | Some b0, None => Some (byteZ b0)
  | None, _ => None
  end.
Proof.
  induction i as [|i IH]; intros [|b0 [|b1 rest]]; try reflexivity.
  simpl read_words. rewrite lookup_cons_ne_0 by lia. simpl Nat.pred. rewrite IH.
  replace (2 * S i)%nat with (S (S (2 * i))) by lia.
  replace (S (S (2 * i)) + 1)%nat with (S (S (2 * i + 1))) by lia.
  reflexivity.
Qed.

(** X2: cell [i] of the loaded memory is the little-endian 16-bit word made
    of the file's bytes [2i] and [2i+1]; a last odd byte is a cell of its
    own; every cell after the program, up to cell 32775, is 0; and the
    machine starts with an empty stack at ip 0, READY, with empty buffers. *)
Theorem from_file_cells (file : list byte) (i : nat) :
  (∀ b0 b1, file !! (2 * i)%nat = Some b0 → file !! (2 * i + 1)%nat = Some b1 →
     memory (from_file file) !! i = Some (byteZ b0 + 256 * byteZ b1)) ∧
  (∀ b0, file !! (2 * i)%nat = Some b0 → file !! (2 * i + 1)%nat = None →
     memory (from_file file) !! i = Some (byteZ b0)) ∧
  (((length file + 1) / 2 ≤ i)%nat → Z.of_nat i < 32776 →
     memory (from_file file) !! i = Some 0) ∧
  stack (from_file file) = [] ∧ ip (from_file file) = 0 ∧
  state (from_file file) = READY ∧
  reader (from_file file) = sio_new ∧ writer (from_file file) = sio_new.
Proof.
  assert (Hw : ∀ x, read_words file !! i = Some x →
               memory (from_file file) !! i = Some x).
  { intros x Hx. unfold from_file, Vm_init. simpl memory.
    by apply lookup_app_l_Some. }
  repeat split.
  - intros b0 b1 H0 H1. apply Hw. by rewrite read_words_lookup, H0, H1.
  - intros b0 H0 H1. apply Hw. by rewrite read_words_lookup, H0, H1.
  - intros Hge Hlt. unfold from_file, Vm_init. simpl memory.
    pose proof (read_words_length (length file) file (le_n _)) as Hlen.
    rewrite lookup_app_r by lia. apply lookup_replicate_2.
    rewrite Hlen. change (2 ^ 15) with 32768. lia.
Qed.

Lemma from_file_cells_witness :
  memory (from_file [Byte.x13; Byte.x00; Byte.x41]) !! 0%nat = Some 19 ∧
  memory (from_file [Byte.x13; Byte.x00; Byte.x41]) !! 1%nat = Some 65 ∧
  memory (from_file [Byte.x13; Byte.x00; Byte.x41]) !! 2%nat = Some 0.
Proof.
  split; [|split].
  - destruct (from_file_cells [Byte.x13; Byte.x00; Byte.x41] 0) as (H & _).
    exact (H Byte.x13 Byte.x00 eq_refl eq_refl).
  - destruct (from_file_cells [Byte.x13; Byte.x00; Byte.x41] 1) as (_ & H & _).
    exact (H Byte.x41 eq_refl eq_refl).
  - destruct (from_file_cells [Byte.x13; Byte.x00; Byte.x41] 2) as (_ & _ & H & _).
    apply H; simpl; lia.
Defined.

(** ** The two streams *)

(** X3: [Vm.input] writes at the reader's cursor, it does not append: the
    unread input afterwards is the given text followed by what was unread
    before minus its first [len(s)] characters.  Pending input is
    overwritten. *)
Theorem input_overwrites_pending (s : pystr) (vm : Vm) :
  unread (reader (input s vm)) = s ++ drop (length s) (unread (reader vm)).
Proof.
  unfold input, unread, sio_seek, sio_tell, sio_write. simpl.
  generalize (buf (reader vm)) (pos (reader vm)). intros b p.
  rewrite drop_drop, app_assoc, drop_app_length'; [done|].
  rewrite length_app, length_take, length_replicate.
  destruct (Nat.le_ge_cases p (length b));
    [rewrite Nat.min_l by done | rewrite Nat.min_r by done]; lia.
Qed.

(** [Vm.output] returns what the writer holds and empties it, touching
    nothing else; a second call right after returns the empty string. *)
Lemma output_drains (vm : Vm) :
  (output vm).1 = sio_getvalue (writer vm) ∧
  writer (output vm).2 = sio_new ∧
  (output (output vm).2).1 = [] ∧
  (output (output vm).2).2 = (output vm).2 ∧
  dump (output vm).2 = dump vm ∧ state (output vm).2 = state vm ∧
  reader (output vm).2 = reader vm.
Proof. by destruct vm as [m s i st r [b p]]. Qed.

(** ** What one instruction can touch *)

Lemma val_inv i vm x vm' : val i vm = Ok (x, vm') → vm' = vm.
Proof.
  unfold val. destruct (i <=? 32767); [unfold ret; by intros [= _ <-]|].
  destruct (i <=? 32775); [|done]. unfold bind, gets, lift.
  destruct (getitem (memory vm) i); [by intros [= _ <-]|done].
Qed.

Lemma store_inv a x vm u vm' :
  store a x vm = Ok (u, vm') →
  ∃ n, py_index (length (memory vm)) a = Some n ∧
       vm' = set_memory (<[n := x]> (memory vm)) vm.
Proof.
  unfold store, bind, gets, lift, modify, setitem.
  destruct (py_index (length (memory vm)) a) as [n|]; [|done].
  intros [= _ <-]. eauto.
Qed.

Lemma pop_inv vm x vm' :
  pop vm = Ok (x, vm') →
  last (stack vm) = Some x ∧ vm' = set_stack (removelast (stack vm)) vm.
Proof.
  unfold pop, bind, gets, lift, modify, ret, list_pop.
  destruct (last (stack vm)) as [y|]; [|done]. by intros [= <- <-].
Qed.

Lemma read1_inv f o f' :
  sio_read1 f = (o, f') →
  buf f' = buf f ∧ (pos f ≤ pos f' ≤ S (pos f))%nat ∧
  (o = None → unread f' = []).
Proof.
  unfold sio_read1.
  destruct (buf f !! pos f) eqn:E; intros [= <- <-]; simpl;
    (split; [done|split; [lia|]]); [done|].
  intros _. by apply unread_nil.
Qed.

Lemma chr_inv x s : chr x = Ok s → 0 ≤ x ≤ 1114111 ∧ s = [x].
Proof.
  unfold chr. destruct (Z.leb_spec 0 x), (Z.leb_spec x 1114111); simpl;
    intros [= <-]; auto with lia.
Qed.

(** One inversion step on a successful run of a piece of [step], leaving
    the final machine as an explicit term. *)
Ltac effect_inv :=
  match goal with
  | H : grab _ = Ok _ |- _ => apply grab_inv in H; destruct H as (_ & _ & ->)
  | H : val _ _ = Ok _ |- _ => apply val_inv in H; subst
  | H : pop _ = Ok _ |- _ => apply pop_inv in H; destruct H as [_ ->]
  | H : push _ _ = Ok _ |- _ => apply push_inv in H; subst
  | H : gets _ _ = Ok _ |- _ => apply gets_inv in H; destruct H as [-> ->]
  | H : modify _ _ = Ok _ |- _ => apply modify_inv in H; subst
  | H : ret _ _ = Ok _ |- _ => apply ret_inv in H; destruct H as [_ ->]
  | H : raise _ _ = Ok _ |- _ => discriminate H
  | H : lift _ _ = Ok _ |- _ => apply lift_inv in H; destruct H as [? ->]
  | H : chr _ = Ok _ |- _ => apply chr_inv in H; destruct H as [? ->]
  | H : store _ _ _ = Ok _ |- _ => apply store_inv in H; destruct H as (? & _ & ->)
  | H : sio_read1 _ = _ |- _ => apply read1_inv in H; destruct H as (? & ? & ?)
  | H : (if ?b then _ else _) _ = Ok _ |- _ => destruct b eqn:?
  | H : (match ?l with [] => _ | _ :: _ => _ end) _ = Ok _ |- _ =>
      let E := fresh "E" in destruct l eqn:E
  | H : (let (_, _) := ?p in _) _ = Ok _ |- _ => destruct p as [[?|] ?] eqn:?
  | H : bind _ _ _ = Ok _ |- _ =>
      apply bind_inv in H; destruct H as (? & ? & ? & H); cbv beta in H
  end.

Ltac unfold_setters :=
  unfold set_memory, set_stack, set_ip, set_state, set_reader, set_writer in *;
  cbn [memory stack ip state reader writer] in *.

Ltac effect_fin :=
  unfold_setters; rewrite ?length_insert; repeat split;
  first [ reflexivity | lia | congruence | left; reflexivity
        | right; left; reflexivity
        | right; eexists; split; [eassumption | reflexivity]
        | right; right; repeat split;
          first [ solve [auto]
                | unfold dump; cbn [memory stack ip]; f_equal; lia ] ].

(** The effects of one successful instruction on the size of the memory,
    on the two streams and on the status. *)
Lemma step_effects vm vm' :
  step vm = Ok (tt, vm') →
  length (memory vm') = length (memory vm) ∧
  buf (reader vm') = buf (reader vm) ∧
  (pos (reader vm) ≤ pos (reader vm') ≤ S (pos (reader vm)))%nat ∧
  (writer vm' = writer vm ∨
   ∃ c, 0 ≤ c ≤ 1114111 ∧ writer vm' = sio_write [c] (writer vm)) ∧
  (state vm' = state vm ∨ state vm' = HALTED ∨
   (state vm' = INPUT_BLOCKED ∧ unread (reader vm') = [] ∧
    dump vm' = dump vm ∧ getitem (memory vm) (ip vm) = Ok 20)).
Proof.
  intros H. unfold step in H.
  apply bind_inv in H as (op & vm1 & Hg & H).
  apply grab_inv in Hg as (Hget & _ & ->).
  destruct op as [|p|p].
  - repeat effect_inv. effect_fin.
  - repeat (destruct p as [p|p|]; try solve [repeat effect_inv; effect_fin]).
  - repeat effect_inv. effect_fin.
Qed.

Lemma run_invariant (P : Vm → Prop) :
  (∀ vm vm', state vm = READY → P vm → step vm = Ok (tt, vm') → P vm') →
  ∀ fuel vm vm', P vm → run fuel vm = Some (Ok vm') → P vm'.
Proof.
  intros Hstep. induction fuel as [|fuel IH]; intros vm vm' HP; simpl;
    destruct (state vm) eqn:E; try (by intros [= <-]).
  destruct (step vm) as [[[] v1]|e] eqn:Es; [|done].
  apply IH. by eapply Hstep.
Qed.

Lemma run_not_ready_after fuel : ∀ vm vm',
  run fuel vm = Some (Ok vm') → state vm' ≠ READY.
Proof.
  induction fuel as [|fuel IH]; intros vm vm'; simpl;
    destruct (state vm) eqn:E; try (intros [= <-]; congruence).
  destruct (step vm) as [[[] v1]|e]; [apply IH|done].
Qed.

(** X4: no instruction changes the size of the memory, so neither does
    [run]. *)
Theorem memory_size_fixed (vm vm' : Vm) :
  (step vm = Ok (tt, vm') → length (memory vm') = length (memory vm)) ∧
  (∀ fuel, run fuel vm = Some (Ok vm') →
     length (memory vm') = length (memory vm)).
Proof.
  split; [by intros (H & _)%step_effects|].
  intros fuel. apply (run_invariant (λ x, length (memory x) = length (memory vm)));
    [|done].
  intros v v' _ Hv (H & _)%step_effects. congruence.
Qed.

Lemma memory_size_fixed_witness :
  length (memory after_north) = length room_prog.
Proof.
  destruct (memory_size_fixed (input (of_string "north" ++ [NL]) (from_dump room_dump))
              after_north) as [_ H].
  apply (H 500%nat). vm_compute. reflexivity.
Defined.

Lemma sio_write_at_end s w :
  at_end w → buf (sio_write s w) = buf w ++ s ∧ at_end (sio_write s w).
Proof.
  unfold at_end, sio_write. intros E. simpl. rewrite E.
  rewrite take_ge, Nat.sub_diag, drop_ge by lia. simpl.
  rewrite app_nil_r. split; [done|]. rewrite length_app. lia.
Qed.

(** X5: output is append-only between two drains.  With the writer's
    cursor at the end of its content, one instruction leaves the content as
    it is or adds one character at the end, and what [Vm.output] returns
    after a [run] is what it would have returned before, followed by what
    the run wrote.  [Vm.output] itself leaves an empty writer with the
    cursor at the end: a second call right after returns the empty
    string. *)
Theorem output_append_only (vm vm' : Vm) :
  at_end (writer vm) →
  (step vm = Ok (tt, vm') →
     at_end (writer vm') ∧
     ∃ s, (length s ≤ 1)%nat ∧ buf (writer vm') = buf (writer vm) ++ s) ∧
  (∀ fuel, run fuel vm = Some (Ok vm') →
     at_end (writer vm') ∧ ∃ new, (output vm').1 = (output vm).1 ++ new) ∧
  (at_end (writer (output vm).2) ∧ (output (output vm).2).1 = []).
Proof.
  intros Hend.
  assert (Hstep : ∀ v v', at_end (writer v) → step v = Ok (tt, v') →
            at_end (writer v') ∧
            ∃ s, (length s ≤ 1)%nat ∧ buf (writer v') = buf (writer v) ++ s).
  { intros v v' Hv (_ & _ & _ & [->|(c & _ & ->)] & _)%step_effects.
    - split; [done|]. exists []. split; [simpl; lia|by rewrite app_nil_r].
    - destruct (sio_write_at_end [c] _ Hv) as [-> ?]. split; [done|].
      exists [c]. split; [simpl; lia|done]. }
  split; [by apply Hstep|]. split; [|done].
  intros fuel.
  apply (run_invariant (λ x, at_end (writer x) ∧
                             ∃ new, (output x).1 = (output vm).1 ++ new)).
  - intros v v' _ [Hv [new Hnew]] Hs.
    destruct (Hstep v v' Hv Hs) as (? & s & _ & Hb).
    split; [done|]. exists (new ++ s). simpl in *. unfold sio_getvalue in *.
    by rewrite Hb, Hnew, app_assoc.
  - split; [done|]. exists []. by rewrite app_nil_r.
Qed.

Lemma output_append_only_witness :
  ∃ new, (output after_north).1 = [] ++ new.
Proof.
  destruct (output_append_only (input (of_string "north" ++ [NL]) (from_dump room_dump))
              after_north) as (_ & H & _); [reflexivity|].
  apply (H 500%nat). vm_compute. reflexivity.
Defined.

(** X6: input is only consumed, from the front: [run] never changes the
    content of the reader, and what is unread afterwards is what was unread
    before minus a consumed prefix. *)
Theorem input_consumed_in_order (fuel : nat) (vm vm' : Vm) :
  run fuel vm = Some (Ok vm') →
  buf (reader vm') = buf (reader vm) ∧
  ∃ consumed, unread (reader vm) = consumed ++ unread (reader vm').
Proof.
  intros Hrun.
  assert (H : buf (reader vm') = buf (reader vm) ∧
              (pos (reader vm) ≤ pos (reader vm'))%nat).
  { revert Hrun.
    apply (run_invariant (λ x, buf (reader x) = buf (reader vm) ∧
                               (pos (reader vm) ≤ pos (reader x))%nat)); [|done].
    intros v v' _ [Hb Hp] (_ & Hb' & Hp' & _)%step_effects.
    split; [congruence|lia]. }
  destruct H as [Hb Hp]. split; [done|].
  exists (take (pos (reader vm') - pos (reader vm)) (unread (reader vm))).
  unfold unread. rewrite Hb.
  rewrite <- (take_drop (pos (reader vm') - pos (reader vm))
                (drop (pos (reader vm)) (buf (reader vm)))) at 1.
  rewrite drop_drop. do 2 f_equal. lia.
Qed.

Lemma input_consumed_in_order_witness :
  ∃ consumed, of_string "north" ++ [NL] = consumed ++ unread (reader after_north).
Proof.
  destruct (input_consumed_in_order 500
              (input (of_string "north" ++ [NL]) (from_dump room_dump)) after_north)
    as [_ H]; [vm_compute; reflexivity|exact H].
Defined.

(** X7: [run] returns only with a status other than READY; and when a
    machine that was READY comes back INPUT_BLOCKED, all its input has been
    read and its ip is at an [in] instruction. *)
Theorem run_stops_halted_or_drained (fuel : nat) (vm vm' : Vm) :
  run fuel vm = Some (Ok vm') →
  state vm' ≠ READY ∧
  (state vm = READY → state vm' = INPUT_BLOCKED →
     unread (reader vm') = [] ∧ getitem (memory vm') (ip vm') = Ok 20).
Proof.
  intros Hrun. split; [by eapply run_not_ready_after|].
  intros Hready. revert Hrun.
  apply (run_invariant (λ x, state x = INPUT_BLOCKED →
           unread (reader x) = [] ∧ getitem (memory x) (ip x) = Ok 20));
    [|congruence].
  intros v v' Hv _ (_ & _ & _ & _ & [E|[E|(_ & Hq & Hd & Hop)]])%step_effects Hb;
    [congruence|congruence|].
  split; [done|]. unfold dump in Hd. injection Hd as -> _ ->. done.
Qed.

Lemma run_stops_halted_or_drained_witness :
  state after_north ≠ READY.
Proof.
  destruct (run_stops_halted_or_drained 500
              (input (of_string "north" ++ [NL]) (from_dump room_dump)) after_north)
    as [H _]; [vm_compute; reflexivity|exact H].
Defined.

(** X8: fetching outside the memory is Python's IndexError (the machine
    does not halt at the end of the memory), and a fetched opcode cell above
    32775 is the ValueError of an invalid number. *)
Theorem step_fetch_errors (vm : Vm) :
  (py_index (length (memory vm)) (ip vm) = None →
     step vm = Raise ListIndexOutOfRange) ∧
  (∀ x, getitem (memory vm) (ip vm) = Ok x → 32775 < x →
     step vm = Raise (InvalidNumber x)) ∧
  class_of ListIndexOutOfRange = IndexError ∧
  (∀ x, class_of (InvalidNumber x) = ValueError).
Proof.
  split; [|split; [|done]].
  - intros H. unfold step, bind, grab, bind, gets, lift, getitem. by rewrite H.
  - intros x Hx Hgt. unfold step, bind, grab, bind, gets, lift, modify.
    rewrite Hx. destruct (Z.leb_spec x 32775); [lia|done].
Qed.

Lemma step_fetch_errors_witness :
  step (Vm_init [21] [] 1) = Raise ListIndexOutOfRange ∧
  step (Vm_init [40000] [] 0) = Raise (InvalidNumber 40000).
Proof.
  split.
  - destruct (step_fetch_errors (Vm_init [21] [] 1)) as [H _]. by apply H.
  - destruct (step_fetch_errors (Vm_init [40000] [] 0)) as (_ & H & _).
    apply H; [reflexivity|lia].
Defined.

(** ** Instructions, run forward *)

Lemma val_mem i vm vm' :
  memory vm' = memory vm →
  val i vm' = match val i vm with Ok (x, _) => Ok (x, vm') | Raise e => Raise e end.
Proof.
  intros Hm. unfold val. destruct (i <=? 32767); [done|].
  destruct (i <=? 32775); [|done]. unfold bind, gets, lift. rewrite Hm.
  by destruct (getitem (memory vm) i).
Qed.

Lemma store_ok a x vm m' :
  setitem (memory vm) a x = Ok m' → store a x vm = Ok (tt, set_memory m' vm).
Proof. intros H. unfold store, bind, gets, lift, modify. by rewrite H. Qed.

Lemma pop_snoc vm s x : stack vm = s ++ [x] → pop vm = Ok (x, set_stack s vm).
Proof.
  intros H. unfold pop, bind, gets, lift, modify, ret, list_pop.
  by rewrite H, last_snoc, removelast_last.
Qed.

(** X9: a value goes through the stack unchanged: [push b] followed by
    [pop a] leaves the stack as it was and stores the value of [b] at [a]. *)
Theorem push_pop_round_trip (vm : Vm) (a b x : Z) (m' : list Z) :
  getitem (memory vm) (ip vm) = Ok 2 →
  getitem (memory vm) (ip vm + 1) = Ok b → b ≤ 32775 →
  getitem (memory vm) (ip vm + 2) = Ok 3 →
  getitem (memory vm) (ip vm + 3) = Ok a → a ≤ 32775 →
  val b vm = Ok (x, vm) → setitem (memory vm) a x = Ok m' →
  ∃ vm1 vm2,
    step vm = Ok (tt, vm1) ∧ step vm1 = Ok (tt, vm2) ∧
    stack vm1 = stack vm ++ [x] ∧ memory vm1 = memory vm ∧
    stack vm2 = stack vm ∧ memory vm2 = m' ∧ ip vm2 = ip vm + 4 ∧
    state vm2 = state vm ∧ reader vm2 = reader vm ∧ writer vm2 = writer vm.
Proof.
  intros Hop Hb Hble Hop2 Ha Hale Hvb Hset.
  set (vm1 := set_stack (stack vm ++ [x]) (set_ip (ip vm + 2) vm)).
  exists vm1, (set_memory m' (set_stack (stack vm) (set_ip (ip vm + 4) vm1))).
  assert (H1 : step vm = Ok (tt, vm1)).
  { unfold step, bind. rewrite (grab_ok vm 2 Hop) by lia. cbv beta iota.
    rewrite (grab_set_ip vm (ip vm + 1) b (ip vm + 2)) by (assumption || lia).
    cbv beta iota. rewrite (val_mem b vm) by reflexivity. rewrite Hvb.
    reflexivity. }
  split; [exact H1|]. split; [|by repeat split].
  unfold step, bind. rewrite (grab_ok vm1 3 Hop2) by lia. cbv beta iota.
  rewrite (grab_set_ip vm1 (ip vm1 + 1) a (ip vm + 4)); [|
    change (ip vm1) with (ip vm + 2);
    replace (ip vm + 2 + 1) with (ip vm + 3) by lia; exact Ha
    | lia | change (ip vm1) with (ip vm + 2); lia].
  cbv beta iota.
  rewrite (pop_snoc (set_ip (ip vm + 4) vm1) (stack vm) x eq_refl).
  cbv beta iota.
  rewrite (store_ok a x (set_stack (stack vm) (set_ip (ip vm + 4) vm1)) m' Hset).
  reflexivity.
Qed.

Lemma push_pop_round_trip_witness :
  ∃ vm1 vm2,
    step (Vm_init [2; 5; 3; 0] [7] 0) = Ok (tt, vm1) ∧ step vm1 = Ok (tt, vm2) ∧
    stack vm2 = [7] ∧ memory vm2 = [5; 5; 3; 0].
Proof.
  destruct (push_pop_round_trip (Vm_init [2; 5; 3; 0] [7] 0) 0 5 5 [5; 5; 3; 0])
    as (vm1 & vm2 & H1 & H2 & _ & _ & Hs & Hm & _);
    try reflexivity; try (simpl; lia).
  exists vm1, vm2. repeat split; assumption.
Defined.

Lemma match_snoc {A B} (s : list A) (x : A) (a b : B) :
  match s ++ [x] with [] => a | _ :: _ => b end = b.
Proof. by destruct s. Qed.

(** X10: [call a] pushes the address of the next instruction and jumps to
    the value of [a]; a [ret] found there comes back to that address with
    the stack as it was before the call: together they leave the machine as
    it was, two cells further. *)
Theorem call_ret_round_trip (vm : Vm) (a t : Z) :
  getitem (memory vm) (ip vm) = Ok 17 →
  getitem (memory vm) (ip vm + 1) = Ok a → a ≤ 32775 →
  val a vm = Ok (t, vm) →
  getitem (memory vm) t = Ok 18 →
  ∃ vm1,
    step vm = Ok (tt, vm1) ∧
    ip vm1 = t ∧ stack vm1 = stack vm ++ [ip vm + 2] ∧
    memory vm1 = memory vm ∧
    step vm1 = Ok (tt, set_ip (ip vm + 2) vm).
Proof.
  intros Hop Ha Hale Hva Hret.
  set (vm1 := set_ip t (set_stack (stack vm ++ [ip vm + 2]) (set_ip (ip vm + 2) vm))).
  exists vm1.
  assert (H1 : step vm = Ok (tt, vm1)).
  { unfold step, bind. rewrite (grab_ok vm 17 Hop) by lia. cbv beta iota.
    rewrite (grab_set_ip vm (ip vm + 1) a (ip vm + 2)) by (assumption || lia).
    cbv beta iota. unfold gets, push, bind, gets, modify. cbv beta iota.
    rewrite (val_mem a vm) by reflexivity. rewrite Hva. reflexivity. }
  split; [exact H1|]. repeat (split; [reflexivity|]).
  unfold step, bind. rewrite (grab_ok vm1 18 Hret) by lia. cbv beta iota.
  unfold gets. cbv beta iota.
  change (stack (set_ip (ip vm1 + 1) vm1)) with (stack vm ++ [ip vm + 2]).
  rewrite match_snoc.
  rewrite (pop_snoc (set_ip (ip vm1 + 1) vm1) (stack vm) (ip vm + 2) eq_refl).
  reflexivity.
Qed.

Lemma call_ret_round_trip_witness :
  ∃ vm1, step (Vm_init [17; 3; 21; 18] [] 0) = Ok (tt, vm1) ∧
         step vm1 = Ok (tt, set_ip 2 (Vm_init [17; 3; 21; 18] [] 0)).
Proof.
  destruct (call_ret_round_trip (Vm_init [17; 3; 21; 18] [] 0) 3 3)
    as (vm1 & H1 & _ & _ & _ & H2); try reflexivity; try (simpl; lia).
  exists vm1. split; assumption.
Defined.

(** X11: [add] and [mult] store the sum and the product modulo 32768, a
    value in 0..32767 whatever the operands are, and move past their four
    cells. *)
Theorem add_mult_wrap (vm : Vm) (op a b c x y : Z) (m' : list Z) :
  op = 9 ∨ op = 10 →
  getitem (memory vm) (ip vm) = Ok op →
  getitem (memory vm) (ip vm + 1) = Ok a → a ≤ 32775 →
  getitem (memory vm) (ip vm + 2) = Ok b → b ≤ 32775 →
  getitem (memory vm) (ip vm + 3) = Ok c → c ≤ 32775 →
  val b vm = Ok (x, vm) → val c vm = Ok (y, vm) →
  setitem (memory vm) a ((if op =? 9 then x + y else x * y) `mod` 32768) = Ok m' →
  step vm = Ok (tt, set_memory m' (set_ip (ip vm + 4) vm)) ∧
  0 ≤ (if op =? 9 then x + y else x * y) `mod` 32768 ≤ 32767.
Proof.
  intros Hcase Hop Ha Hale Hb Hble Hc Hcle Hvb Hvc Hset.
  split; [|pose proof (Z.mod_pos_bound (if op =? 9 then x + y else x * y) 32768); lia].
  unfold step, bind.
  destruct Hcase as [-> | ->];
    [rewrite (grab_ok vm 9 Hop) by lia | rewrite (grab_ok vm 10 Hop) by lia];
    cbv beta iota;
    rewrite (grab_set_ip vm (ip vm + 1) a (ip vm + 2)) by (assumption || lia);
    cbv beta iota;
    rewrite (grab_set_ip vm (ip vm + 2) b (ip vm + 3)) by (assumption || lia);
    cbv beta iota;
    rewrite (grab_set_ip vm (ip vm + 3) c (ip vm + 4)) by (assumption || lia);
    cbv beta iota;
    rewrite (val_mem b vm) by reflexivity; rewrite Hvb; cbv beta iota;
    rewrite (val_mem c vm) by reflexivity; rewrite Hvc; cbv beta iota;
    exact (store_ok a _ (set_ip (ip vm + 4) vm) m' Hset).
Qed.

Lemma add_mult_wrap_witness :
  step (Vm_init [10; 0; 32767; 32767] [] 0)
  = Ok (tt, set_memory [1; 0; 32767; 32767]
              (set_ip 4 (Vm_init [10; 0; 32767; 32767] [] 0))).
Proof.
  apply (add_mult_wrap (Vm_init [10; 0; 32767; 32767] [] 0) 10 0 32767 32767
           32767 32767 [1; 0; 32767; 32767]);
    first [reflexivity | simpl; lia | by right].
Defined.

Lemma not15_value x :
  0 ≤ x ≤ 32767 → Z.land (Z.shiftl 1 15 - 1) (Z.lnot x) = 32767 - x.
Proof.
  intros Hx. change (Z.shiftl 1 15 - 1) with (Z.ones 15).
  rewrite Z.land_comm, Z.land_ones by lia. unfold Z.lnot.
  replace (Z.pred (- x)) with (32767 - x + (-1) * 2 ^ 15) by (change (2 ^ 15) with 32768; lia).
  rewrite Z.mod_add by (change (2 ^ 15) with 32768; lia).
  apply Z.mod_small. change (2 ^ 15) with 32768. lia.
Qed.

(** X12: for a 15-bit value x, [not] stores 32767 - x, again a 15-bit
    value, so that inverting twice gives x back. *)
Theorem not_is_complement (vm : Vm) (a b x : Z) (m' : list Z) :
  getitem (memory vm) (ip vm) = Ok 14 →
  getitem (memory vm) (ip vm + 1) = Ok a → a ≤ 32775 →
  getitem (memory vm) (ip vm + 2) = Ok b → b ≤ 32775 →
  val b vm = Ok (x, vm) → 0 ≤ x ≤ 32767 →
  setitem (memory vm) a (32767 - x) = Ok m' →
  step vm = Ok (tt, set_memory m' (set_ip (ip vm + 3) vm)) ∧
  0 ≤ 32767 - x ≤ 32767 ∧
  Z.land (Z.shiftl 1 15 - 1) (Z.lnot (32767 - x)) = x.
Proof.
  intros Hop Ha Hale Hb Hble Hvb Hx Hset.
  split; [|split; [lia|rewrite not15_value by lia; lia]].
  unfold step, bind. rewrite (grab_ok vm 14 Hop) by lia. cbv beta iota.
  rewrite (grab_set_ip vm (ip vm + 1) a (ip vm + 2)) by (assumption || lia).
  cbv beta iota.
  rewrite (grab_set_ip vm (ip vm + 2) b (ip vm + 3)) by (assumption || lia).
  cbv beta iota.
  rewrite (val_mem b vm) by reflexivity. rewrite Hvb. cbv beta iota.
  rewrite not15_value by lia.
  exact (store_ok a _ (set_ip (ip vm + 3) vm) m' Hset).
Qed.

Lemma not_is_complement_witness :
  step (Vm_init [14; 0; 5] [] 0)
  = Ok (tt, set_memory [32762; 0; 5] (set_ip 3 (Vm_init [14; 0; 5] [] 0))).
Proof.
  apply (not_is_complement (Vm_init [14; 0; 5] [] 0) 0 5 5 [32762; 0; 5]);
    first [reflexivity | simpl; lia].
Defined.

(** X13: [jt] and [jf] are each other's complement: on the same operands
    exactly one of them jumps to the value of [b], the other one goes on
    with the next instruction; neither touches anything but the ip. *)
Theorem jt_jf_complement (vm : Vm) (op a b x t : Z) :
  op = 7 ∨ op = 8 →
  getitem (memory vm) (ip vm) = Ok op →
  getitem (memory vm) (ip vm + 1) = Ok a → a ≤ 32775 →
  getitem (memory vm) (ip vm + 2) = Ok b → b ≤ 32775 →
  val a vm = Ok (x, vm) → val b vm = Ok (t, vm) →
  step vm = Ok (tt, set_ip (if bool_decide ((x = 0) ↔ (op = 8)) then t
                             else ip vm + 3) vm).
Proof.
  intros Hcase Hop Ha Hale Hb Hble Hva Hvb.
  unfold step, bind.
  destruct Hcase as [-> | ->];
    [rewrite (grab_ok vm 7 Hop) by lia | rewrite (grab_ok vm 8 Hop) by lia];
    cbv beta iota;
    rewrite (grab_set_ip vm (ip vm + 1) a (ip vm + 2)) by (assumption || lia);
    cbv beta iota;
    rewrite (grab_set_ip vm (ip vm + 2) b (ip vm + 3)) by (assumption || lia);
    cbv beta iota;
    rewrite (val_mem a vm) by reflexivity; rewrite Hva; cbv beta iota;
    destruct (Z.eqb_spec x 0) as [->|Hne];
    rewrite ?(val_mem b vm (set_ip (ip vm + 3) vm)) by reflexivity;
    rewrite ?Hvb; cbv beta iota; unfold ret, modify;
    case_bool_decide as Hd; try reflexivity; exfalso;
    first [ apply Hd; split; first [done | lia]
          | destruct Hd as [Hd1 Hd2]; first [ by specialize (Hd1 eq_refl)
                                            | specialize (Hd2 eq_refl); lia ] ].
Qed.

Lemma jt_jf_complement_witness :
  step (Vm_init [7; 1; 9] [] 0) = Ok (tt, set_ip 9 (Vm_init [7; 1; 9] [] 0)) ∧
  step (Vm_init [8; 1; 9] [] 0) = Ok (tt, set_ip 3 (Vm_init [8; 1; 9] [] 0)).
Proof.
  split.
  - apply (jt_jf_complement (Vm_init [7; 1; 9] [] 0) 7 1 9 1 9);
      first [reflexivity | simpl; lia | by left].
  - apply (jt_jf_complement (Vm_init [8; 1; 9] [] 0) 8 1 9 1 9);
      first [reflexivity | simpl; lia | by right].
Defined.

(** ** Whole programs *)

Lemma getitem_nat {A} (l : list A) (n : nat) (x : A) :
  l !! n = Some x → getitem l (Z.of_nat n) = Ok x.
Proof.
  intros H. pose proof (lookup_lt_Some _ _ _ H) as Hlt. unfold getitem, py_index.
  destruct (Z.leb_spec 0 (Z.of_nat n)); [|lia].
  destruct (Z.ltb_spec (Z.of_nat n) (Z.of_nat (length l))); [|lia].
  simpl. by rewrite Nat2Z.id, H.
Qed.

Lemma run_step n vm vm' :
  state vm = READY → step vm = Ok (tt, vm') → run (S n) vm = run n vm'.
Proof. intros Hs Hstep. simpl. by rewrite Hs, Hstep. Qed.

Lemma sio_write_at_end_eq s w :
  at_end w → sio_write s w = mkStringIO (buf w ++ s) (length (buf w ++ s)).
Proof.
  unfold at_end, sio_write. intros E. rewrite E.
  rewrite take_ge, Nat.sub_diag, drop_ge by lia. simpl.
  rewrite app_nil_r, length_app. done.
Qed.

Lemma out_prog_runs (cs : pystr) : ∀ (pre post st : list Z) (r w : StringIO),
  Forall (λ c, 0 ≤ c ≤ 32767) cs → at_end w →
  run (S (length cs))
    (mkVm (pre ++ out_prog cs ++ post) st (Z.of_nat (length pre)) READY r w)
  = Some (Ok (mkVm (pre ++ out_prog cs ++ post) st
                (Z.of_nat (length pre + 2 * length cs + 1)) HALTED r
                (mkStringIO (buf w ++ cs) (length (buf w ++ cs))))).
Proof.
  induction cs as [|c cs IH]; intros pre post st r w Hcs Hw.
  - set (vm := mkVm _ _ _ _ _ _).
    assert (Hop : getitem (memory vm) (ip vm) = Ok 0).
    { unfold vm. cbn [memory ip]. apply getitem_nat.
      by rewrite lookup_app_r, Nat.sub_diag. }
    rewrite (run_step _ vm (set_state HALTED (set_ip (ip vm + 1) vm))); [|done|].
    + destruct w as [b p]. unfold at_end in Hw. simpl in Hw. subst p.
      unfold vm, set_state, set_ip. simpl. rewrite app_nil_r.
      by replace (Z.of_nat (length pre + 0 + 1)) with (Z.of_nat (length pre) + 1)
        by lia.
    + unfold step, bind. by rewrite (grab_ok vm 0 Hop).
  - apply Forall_cons_1 in Hcs as [Hc Hcs].
    set (vm := mkVm _ _ _ _ _ _).
    assert (Hop : getitem (memory vm) (ip vm) = Ok 19).
    { unfold vm. cbn [memory ip]. apply getitem_nat.
      by rewrite lookup_app_r, Nat.sub_diag. }
    assert (Harg : getitem (memory vm) (ip vm + 1) = Ok c).
    { unfold vm. cbn [memory ip].
      replace (Z.of_nat (length pre) + 1) with (Z.of_nat (S (length pre))) by lia.
      apply getitem_nat. rewrite lookup_app_r by lia.
      by replace (S (length pre) - length pre)%nat with 1%nat by lia. }
    rewrite (run_step _ vm
               (mkVm (memory vm) st (Z.of_nat (length pre) + 2) READY r
                  (mkStringIO (buf w ++ [c]) (length (buf w ++ [c]))))); [|done|].
    + specialize (IH (pre ++ [19; c]) post st r
                     (mkStringIO (buf w ++ [c]) (length (buf w ++ [c])))
                     Hcs eq_refl).
      rewrite length_app in IH. change (length [19; c]) with 2%nat in IH.
      cbn [buf] in IH.
      replace (Z.of_nat (length pre + 2)) with (Z.of_nat (length pre) + 2) in IH by lia.
      unfold vm. cbn [memory length].
      replace (pre ++ out_prog (c :: cs) ++ post)
        with ((pre ++ [19; c]) ++ out_prog cs ++ post)
        by (unfold out_prog; simpl; by rewrite <- !app_assoc).
      rewrite IH.
      replace ((buf w ++ [c]) ++ cs) with (buf w ++ c :: cs)
        by (by rewrite <- app_assoc).
      by replace (length pre + 2 + 2 * length cs + 1)%nat
        with (length pre + 2 * S (length cs) + 1)%nat by lia.
    + unfold step, bind. rewrite (grab_ok vm 19 Hop) by lia. cbv beta iota.
      rewrite (grab_set_ip vm (ip vm + 1) c (ip vm + 2)) by (assumption || lia).
      cbv beta iota. unfold val.
      destruct (Z.leb_spec c 32767); [|lia]. unfold ret, lift, chr.
      destruct (Z.leb_spec 0 c); [|lia].
      destruct (Z.leb_spec c 1114111); [|lia]. simpl.
      unfold modify. simpl. by rewrite (sio_write_at_end_eq [c] w Hw).
Qed.

(** X14: a program made of one [out c] per character of a text followed by
    [halt], wherever it sits in the memory, prints exactly that text after
    what was already written and ends Halted behind the [halt], in one step
    per character plus one; memory, stack and input are as before. *)
Theorem out_prog_prints (cs pre post st : list Z) (r w : StringIO) :
  Forall (λ c, 0 ≤ c ≤ 32767) cs → at_end w →
  ∃ vm',
    run (S (length cs))
      (mkVm (pre ++ out_prog cs ++ post) st (Z.of_nat (length pre)) READY r w)
    = Some (Ok vm') ∧
    state vm' = HALTED ∧
    sio_getvalue (writer vm') = sio_getvalue w ++ cs ∧
    (output vm').1 = sio_getvalue w ++ cs ∧
    memory vm' = pre ++ out_prog cs ++ post ∧ stack vm' = st ∧
    reader vm' = r ∧
    ip vm' = Z.of_nat (length pre) + 2 * Z.of_nat (length cs) + 1.
Proof.
  intros Hcs Hw. eexists. split; [by apply out_prog_runs|].
  simpl. repeat split. lia.
Qed.

Lemma out_prog_prints_witness :
  ∃ vm', run 3 (Vm_init (out_prog [65; 66]) [] 0) = Some (Ok vm') ∧
         state vm' = HALTED ∧ (output vm').1 = [65; 66].
Proof.
  destruct (out_prog_prints [65; 66] [] [] [] sio_new sio_new)
    as (vm' & Hrun & Hst & _ & Hout & _).
  - repeat constructor; lia.
  - reflexivity.
  - exists vm'. split; [exact Hrun|split; [exact Hst | exact Hout]].
Defined.

(** ** Snapshots stand for the machine *)

Ltac obs_fields :=
  unfold same_observable, dump, set_state, set_ip, set_memory, set_stack,
    set_reader, set_writer;
  intros [] []; simpl; intros ([= -> -> ->] & -> & ? & ->);
  repeat split; first [reflexivity | assumption].

Lemma respects_ret {A} (a : A) : respects (ret a).
Proof. intros v1 v2 H. simpl. auto. Qed.

Lemma respects_raise {A} e : respects (raise (A := A) e).
Proof. intros v1 v2 H. reflexivity. Qed.

Lemma respects_lift {A} (r : result A) : respects (lift r).
Proof. intros v1 v2 H. unfold lift. destruct r; simpl; auto. Qed.

Lemma respects_bind {A B} (c : M A) (k : A → M B) :
  respects c → (∀ a, respects (k a)) → respects (bind c k).
Proof.
  intros Hc Hk v1 v2 H. unfold bind. specialize (Hc v1 v2 H).
  destruct (c v1) as [[a1 w1]|e1], (c v2) as [[a2 w2]|e2]; try done.
  destruct Hc as [-> Hv]. apply Hk, Hv.
Qed.

Lemma respects_gets {A} (f : Vm → A) :
  (∀ a b, same_observable a b → f a = f b) → respects (gets f).
Proof. intros Hf v1 v2 H. unfold gets. split; auto. Qed.

Lemma respects_modify (f : Vm → Vm) :
  (∀ a b, same_observable a b → same_observable (f a) (f b)) →
  respects (modify f).
Proof. intros Hf v1 v2 H. unfold modify. split; auto. Qed.

Lemma read1_same f1 f2 :
  unread f1 = unread f2 →
  (sio_read1 f1).1 = (sio_read1 f2).1 ∧
  unread (sio_read1 f1).2 = unread (sio_read1 f2).2.
Proof.
  intros H. unfold sio_read1.
  destruct (buf f1 !! pos f1) as [c1|] eqn:E1, (buf f2 !! pos f2) as [c2|] eqn:E2;
    simpl.
  - rewrite (unread_cons f1 c1 E1), (unread_cons f2 c2 E2) in H.
    by injection H as -> ->.
  - rewrite (unread_cons f1 c1 E1), (proj2 (unread_nil f2) E2) in H. done.
  - rewrite (unread_cons f2 c2 E2), (proj2 (unread_nil f1) E1) in H. done.
  - done.
Qed.

(** The body of the [in] instruction, after its operand is read. *)
Lemma respects_in a :
  respects
    (let* r := gets reader in
     match sio_read1 r with
     | (None, r') =>
         let* _ := modify (set_reader r') in
         let* _ := modify (set_state INPUT_BLOCKED) in
         let* i := gets ip in modify (set_ip (i - 2))
     | (Some ch, r') =>
         let* _ := modify (set_reader r') in
         store a ch
     end).
Proof.
  intros [m1 s1 i1 st1 r1 w1] [m2 s2 i2 st2 r2 w2].
  unfold same_observable, dump. simpl. intros ([= -> -> ->] & -> & Hu & ->).
  destruct (read1_same r1 r2 Hu) as [Ho Hr].
  unfold bind, gets, modify. simpl.
  destruct (sio_read1 r1) as [[c1|] r1'], (sio_read1 r2) as [[c2|] r2'];
    simpl in *; try done.
  injection Ho as ->. unfold store, bind, gets, lift, modify, setitem. simpl.
  destruct (py_index (length m2) a); [|done].
  split; [done|]. unfold same_observable, dump. simpl. auto.
Qed.

Ltac respects_step :=
  first
    [ apply respects_ret | apply respects_raise | apply respects_lift
    | apply respects_in
    | apply respects_bind; [|intros ?]
    | apply respects_gets; obs_fields
    | apply respects_modify; obs_fields
    | match goal with
      | |- respects (if ?b then _ else _) => destruct b
      | |- respects (match ?x with [] => _ | _ :: _ => _ end) => destruct x
      end ].

Lemma respects_grab : respects grab.
Proof. unfold grab. repeat respects_step. Qed.

Lemma respects_val i : respects (val i).
Proof. unfold val. repeat respects_step. Qed.

Lemma respects_store a x : respects (store a x).
Proof. unfold store. repeat respects_step. Qed.

Lemma respects_push x : respects (push x).
Proof. unfold push. repeat respects_step. Qed.

Lemma respects_pop : respects pop.
Proof. unfold pop. repeat respects_step. Qed.

Ltac respects_instr :=
  repeat first
    [ apply respects_grab | apply respects_val | apply respects_store
    | apply respects_push | apply respects_pop | respects_step ].

Lemma respects_step_vm : respects step.
Proof.
  unfold step. apply respects_bind; [apply respects_grab|]. intros op.
  destruct op as [|p|p]; [respects_instr| |respects_instr].
  repeat (destruct p as [p|p|]; try solve [respects_instr]).
Qed.

Lemma run_same_outcome fuel : ∀ a b,
  same_observable a b → same_outcome (run fuel a) (run fuel b).
Proof.
  induction fuel as [|fuel IH]; intros a b H;
    pose proof H as (_ & Hst & _); simpl; rewrite <- Hst;
    destruct (state a); try done.
  pose proof (respects_step_vm a b H) as Hs.
  destruct (step a) as [[[] a']|e1], (step b) as [[[] b']|e2]; try done.
  apply IH. by destruct Hs.
Qed.

(** X15: a machine is its snapshot.  What [run] does depends only on
    memory, stack, ip, status, the unread input and the writer, not on the
    input already consumed; so a machine with no unread input and a drained
    output, and the machine restored from its snapshot, given the same
    input, run to the same outcome: both run out of fuel, both raise the
    same exception, or both return with the same snapshot, status, unread
    input and output. *)
Theorem snapshot_fidelity (fuel : nat) (s : pystr) (vm : Vm) :
  (∀ a b, same_observable a b → same_outcome (run fuel a) (run fuel b)) ∧
  (unread (reader vm) = [] → writer vm = sio_new →
   same_outcome (run fuel (input s vm))
                (run fuel (input s (from_dump (dump vm))))).
Proof.
  split; [apply run_same_outcome|].
  intros Hq Hw. apply run_same_outcome.
  unfold same_observable. repeat split.
  - rewrite !input_overwrites_pending, Hq. reflexivity.
  - simpl. exact Hw.
Qed.

Lemma snapshot_fidelity_witness :
  same_outcome
    (run 500 (input (of_string "north" ++ [NL])
                (set_state INPUT_BLOCKED (Vm_init room_prog [] 0))))
    (run 500 (input (of_string "north" ++ [NL]) (from_dump room_dump))).
Proof.
  destruct (snapshot_fidelity 500 (of_string "north" ++ [NL])
              (set_state INPUT_BLOCKED (Vm_init room_prog [] 0))) as [_ H].
  apply H; reflexivity.
Defined.

(** ** Splitting text *)

Lemma split_aux_nonempty sep s : ∀ k cur, split_aux sep k cur s ≠ [].
Proof.
  induction s as [|c s IH]; intros k cur; simpl; [done|].
  destruct k; [|apply IH]. destruct (startswith sep (c :: s)); [done|apply IH].
Qed.

Lemma split_aux_skip sep s : ∀ k cur,
  (k ≤ length s)%nat → split_aux sep k cur s = split_aux sep 0 cur (drop k s).
Proof.
  induction s as [|c s IH]; intros [|k] cur Hk; simpl in *; try done; try lia.
  apply IH. lia.
Qed.

Lemma startswith_app p : ∀ s, startswith p s = true → s = p ++ drop (length p) s.
Proof.
  induction p as [|a p IH]; intros [|b s]; simpl; try done.
  intros [->%Z.eqb_eq H]%andb_true_iff. f_equal. by apply IH.
Qed.

Lemma join_cons sep p l : l ≠ [] → join sep (p :: l) = p ++ sep ++ join sep l.
Proof. by destruct l. Qed.

Lemma join_split_aux sep n : ∀ s cur,
  sep ≠ [] → (length s ≤ n)%nat →
  join sep (split_aux sep 0 cur s) = reverse cur ++ s.
Proof.
  induction n as [|n IH]; intros [|c s] cur Hsep Hlen; simpl in Hlen;
    try lia; try (simpl; by rewrite app_nil_r).
  cbn [split_aux]. destruct (startswith sep (c :: s)) eqn:E.
  - rewrite join_cons by apply split_aux_nonempty.
    apply startswith_app in E. destruct sep as [|c0 sep]; [done|].
    simpl in E. injection E as -> E.
    assert (Hl : (length sep ≤ length s)%nat).
    { pose proof (f_equal length E) as El. rewrite length_app in El. lia. }
    cbn [length]. rewrite Nat.sub_succ, Nat.sub_0_r.
    rewrite split_aux_skip by done. rewrite IH; [|done|rewrite length_drop; lia].
    simpl. by rewrite <- E.
  - rewrite IH by (done || lia). rewrite reverse_cons, <- app_assoc. done.
Qed.

(** X16: splitting and joining are inverse: for a non-empty separator,
    [s.split(sep)] is never the empty list and [sep.join(s.split(sep))] is
    [s] again. *)
Theorem split_join (sep s : pystr) :
  sep ≠ [] → split sep s ≠ [] ∧ join sep (split sep s) = s.
Proof.
  intros Hsep. split; [apply split_aux_nonempty|].
  unfold split. by rewrite (join_split_aux sep (length s)).
Qed.

Lemma split_join_witness :
  join [NL; NL] (split [NL; NL] room_text) = room_text.
Proof. by apply (split_join [NL; NL] room_text). Defined.

Lemma splitlines_aux_no_break n : ∀ s cur,
  (length s ≤ n)%nat → no_break cur →
  Forall no_break (splitlines_aux cur s).
Proof.
  induction n as [|n IH]; intros [|c s] cur Hlen Hcur; simpl in Hlen; try lia;
    try (simpl; destruct cur; repeat constructor; by apply Forall_reverse).
  cbn [splitlines_aux].
  assert (Hrev : no_break (reverse cur)) by (by apply Forall_reverse).
  destruct (c =? 13).
  - destruct s as [|c' s]; [by repeat constructor|].
    destruct (c' =? 10); constructor; try done;
      apply IH; simpl in *; try lia; constructor.
  - destruct (is_linebreak c) eqn:E.
    + constructor; [done|]. apply IH; [lia|constructor].
    + apply IH; [lia|]. by constructor.
Qed.

(** X17: no line returned by [str.splitlines] contains a line boundary
    character (LF, CR, VT, FF, FS, GS, RS, NEL, LS, PS). *)
Theorem splitlines_no_break (s : pystr) : Forall no_break (splitlines s).
Proof. apply (splitlines_aux_no_break (length s)); [done|constructor]. Qed.

Lemma assert_inv b : assert b = Ok tt → b = true.
Proof. by destruct b. Qed.

(** X18: what [parse_room] accepts has the shape it promises: the text is
    an empty first paragraph, a second paragraph of exactly two lines, one
    list paragraph (the exits, and then no interests) or two (interests,
    then exits), and the prompt as last paragraph, with a blank line between
    paragraphs; the lists are the item lines without their first two
    characters, the header line left out. *)
Theorem parse_room_shape (s title text : pystr) (interests exits : list pystr) :
  parse_room s = Ok (title, text, interests, exits) →
  ∃ p1 p2 line,
    splitlines p1 = [line; text] ∧
    ((s = [NL; NL] ++ p1 ++ [NL; NL] ++ p2 ++ [NL; NL] ++ prompt ∧
      interests = [] ∧ exits = list_items p2) ∨
     (∃ p3,
      s = [NL; NL] ++ p1 ++ [NL; NL] ++ p2 ++ [NL; NL] ++ p3 ++ [NL; NL] ++ prompt ∧
      interests = list_items p2 ∧ exits = list_items p3)).
Proof.
  intros H. unfold parse_room in H.
  destruct (split_join [NL; NL] s) as [_ Hj]; [done|].
  set (ps := split [NL; NL] s) in *.
  destruct (getitem ps 0) as [p0|] eqn:E0; [|done].
  destruct (assert (bool_decide (p0 = []))) as [[]|] eqn:Ea; [|done].
  apply assert_inv, bool_decide_eq_true in Ea. subst p0.
  destruct (getitem ps 1) as [p1|] eqn:E1; [|done].
  destruct (splitlines p1) as [|line [|text' [|]]] eqn:El; try done.
  destruct (assert (startswith (of_string "==") line)); [|done].
  repeat case_bool_decide.
  - destruct ps as [|a0 [|a1 [|a2 [|a3 [|a4 [|a5 ps']]]]]]; try done.
    vm_compute in E0, E1. injection E0 as ->. injection E1 as ->.
    change (getitem [[]; p1; a2; a3; a4] 2) with (Ok a2) in H.
    change (getitem [[]; p1; a2; a3; a4] 3) with (Ok a3) in H.
    change (getitem [[]; p1; a2; a3; a4] (-1)) with (Ok a4) in H.
    cbv beta iota in H. unfold assert in H.
    case_bool_decide as Ep; [|done]. subst a4.
    injection H as <- <- <- <-.
    exists p1, a2, line. split; [done|]. right. exists a3.
    split; [|done]. rewrite <- Hj. reflexivity.
  - destruct ps as [|a0 [|a1 [|a2 [|a3 [|a4 ps']]]]]; try done.
    vm_compute in E0, E1. injection E0 as ->. injection E1 as ->.
    change (getitem [[]; p1; a2; a3] 2) with (Ok a2) in H.
    change (getitem [[]; p1; a2; a3] (-1)) with (Ok a3) in H.
    cbv beta iota in H. unfold assert in H.
    case_bool_decide as Ep; [|done]. subst a3.
    injection H as <- <- <- <-.
    exists p1, a2, line. split; [done|]. left.
    split; [|done]. rewrite <- Hj. reflexivity.
  - done.
Qed.

Lemma parse_room_shape_witness :
  ∃ p1 p2 line,
    splitlines p1 = [line; of_string "A hall."] ∧
    ((foyer_text = [NL; NL] ++ p1 ++ [NL; NL] ++ p2 ++ [NL; NL] ++ prompt ∧
      @nil (list Z) = [] ∧ [of_string "north"] = list_items p2) ∨
     (∃ p3,
      foyer_text
      = [NL; NL] ++ p1 ++ [NL; NL] ++ p2 ++ [NL; NL] ++ p3 ++ [NL; NL] ++ prompt ∧
      [] = list_items p2 ∧ [of_string "north"] = list_items p3)).
Proof.
  apply (parse_room_shape foyer_text (of_string "Foyer")).
  vm_compute. reflexivity.
Defined.

(** ** More on the explorer *)

Lemma reachable_seen_enqueued fuel d0 ex :
  reachable fuel d0 ex →
  (∀ d, d ∈ seen ex → d ∈ enqueued ex) ∧ ∃ l, enqueued ex = d0 :: l.
Proof.
  induction 1 as [|ex d q' _ IH Hq|ex d exit ex' _ IH Hexit].
  - split; [|by exists []]. simpl. intros d ->%elem_of_singleton.
    by apply list_elem_of_singleton.
  - done.
  - destruct IH as [IH [l Hl]].
    apply try_exit_cases in Hexit as [->|(vm & _ & _ & ->)]; [eauto|].
    simpl. split; [|exists (l ++ [dump vm]); by rewrite Hl].
    intros x [->%elem_of_singleton|Hx]%elem_of_union; apply elem_of_app;
      [right; by apply list_elem_of_singleton | left; by apply IH].
Qed.

(** X19: in every state of the loop the visited set is exactly the set of
    the snapshots put on the queue so far, the starting snapshot first: the
    number of visited snapshots is the number of snapshots ever enqueued. *)
Theorem visited_is_enqueued (fuel : nat) (d0 : Dump) (ex : Explorer) :
  reachable fuel d0 ex →
  seen ex = list_to_set (enqueued ex) ∧
  size (seen ex) = length (enqueued ex) ∧
  d0 ∈ seen ex ∧ ∃ l, enqueued ex = d0 :: l.
Proof.
  intros Hr. destruct (reachable_seen_enqueued _ _ _ Hr) as [Hse [l Hl]].
  destruct (reachable_inv _ _ _ Hr) as (Hes & Hnd & _).
  assert (Heq : seen ex = list_to_set (enqueued ex)).
  { apply set_eq. intros d. rewrite elem_of_list_to_set. split; auto. }
  split; [done|]. split; [|split; [|by exists l]].
  - rewrite Heq. by apply size_list_to_set.
  - apply Hes. rewrite Hl. apply list_elem_of_here.
Qed.

Lemma visited_is_enqueued_witness :
  size (seen (mkExplorer {[ room_dump ]} [] [room_dump])) = 1%nat.
Proof.
  destruct (visited_is_enqueued 500 room_dump
              (mkExplorer {[ room_dump ]} [] [room_dump])) as (_ & H & _).
  - apply (reach_popleft 500 room_dump (explorer_init room_dump) room_dump []);
      [apply reach_init | reflexivity].
  - exact H.
Defined.

Lemma try_exit_grows fuel d ex exit ex' :
  try_exit fuel d ex exit = Some (Ok ex') →
  seen ex ⊆ seen ex' ∧ enqueued ex `prefix_of` enqueued ex'.
Proof.
  intros [->|(vm & _ & _ & ->)]%try_exit_cases; [done|]. simpl.
  split; [set_solver|by apply prefix_app_r].
Qed.

Lemma for_exits_grows fuel d exits : ∀ ex ex',
  for_exits fuel d ex exits = Some (Ok ex') →
  seen ex ⊆ seen ex' ∧ enqueued ex `prefix_of` enqueued ex'.
Proof.
  induction exits as [|exit exits IH]; intros ex ex'; simpl.
  - by intros [= <-].
  - destruct (try_exit fuel d ex exit) as [[ex1|e]|] eqn:E; try done.
    intros [H1 H2]%IH. apply try_exit_grows in E as [E1 E2].
    split; by etrans.
Qed.

Lemma explore_node_grows fuel resume d ex ex' :
  explore_node fuel resume d ex = Some (Ok ex') →
  seen ex ⊆ seen ex' ∧ enqueued ex `prefix_of` enqueued ex'.
Proof.
  unfold explore_node.
  destruct (run fuel _) as [[vm|e]|]; try done.
  destruct (output vm) as [out vm1].
  destruct (parse_room out) as [[[[title text] interests] exits]|e]; [|done].
  destruct (if anomaly title interests exits then resume vm1 else Some (Ok ()))
    as [[[]|e]|]; try done.
  apply for_exits_grows.
Qed.

(** X20: when the loop ends normally the queue is empty, and the loop only
    ever adds: every snapshot visited before is still visited, and the
    snapshots enqueued before are the first of those enqueued in the end. *)
Theorem explore_ends_empty (fuel : nat) (resume : Vm → option (result unit))
    (n : nat) (ex ex' : Explorer) :
  explore fuel resume n ex = Some (Ok ex') →
  q ex' = [] ∧ seen ex ⊆ seen ex' ∧ enqueued ex `prefix_of` enqueued ex'.
Proof.
  revert ex. induction n as [|n IH]; intros ex; simpl.
  - destruct (q ex) eqn:Hq; [by intros [= <-]|done].
  - destruct (q ex) as [|d q'] eqn:Hq; [by intros [= <-]|].
    destruct (explore_node fuel resume d _) as [[ex1|e]|] eqn:E; try done.
    intros (H1 & H2 & H3)%IH. apply explore_node_grows in E as [E1 E2].
    simpl in *. split; [done|]. split; by etrans.
Qed.

Lemma explore_S fuel resume n ex d q' :
  q ex = d :: q' →
  explore fuel resume (S n) ex
  = match explore_node fuel resume d (mkExplorer (seen ex) q' (enqueued ex)) with
    | Some (Ok ex') => explore fuel resume n ex'
    | r => r
    end.
Proof. intros Hq. simpl. by rewrite Hq. Qed.

(** Exploring the one-room program: the only exit leads back to the
    starting snapshot, so the loop ends after one node. *)
Lemma explore_room resume n :
  explore 500 resume (S n) (explorer_init room_dump)
  = Some (Ok (mkExplorer {[ room_dump ]} [] [room_dump])).
Proof.
  rewrite (explore_S 500 resume n (explorer_init room_dump) room_dump [] eq_refl).
  assert (Hnode : explore_node 500 resume room_dump
                    (mkExplorer {[ room_dump ]} [] [room_dump])
                  = Some (Ok (mkExplorer {[ room_dump ]} [] [room_dump]))).
  { unfold explore_node.
    assert (Hlook : run 500 (input (of_string "look" ++ [NL]) (from_dump room_dump))
                    = Some (Ok after_look)) by (vm_compute; reflexivity).
    rewrite Hlook.
    assert (Hout : output after_look = (room_text, (output after_look).2))
      by (vm_compute; reflexivity).
    rewrite Hout.
    assert (Hparse : parse_room room_text
                     = Ok (of_string "Twisty passages", of_string "You are in a maze.",
                           [], [of_string "north"])) by (vm_compute; reflexivity).
    rewrite Hparse.
    assert (Hanom : anomaly (of_string "Twisty passages") [] [of_string "north"]
                    = false) by (vm_compute; reflexivity).
    rewrite Hanom. cbn [for_exits].
    unfold try_exit.
    rewrite bool_decide_eq_false_2 by (vm_compute; congruence).
    assert (Hnorth : run 500 (input (of_string "north" ++ [NL]) (from_dump room_dump))
                     = Some (Ok after_north)) by (vm_compute; reflexivity).
    rewrite Hnorth. cbv zeta.
    rewrite bool_decide_eq_true_2; [done|].
    cbn [seen]. apply elem_of_singleton_2. vm_compute. reflexivity. }
  cbn [seen enqueued explorer_init]. rewrite Hnode.
  destruct n; cbn [explore q]; reflexivity.
Qed.

Lemma explore_ends_empty_witness :
  q (mkExplorer {[ room_dump ]} [] [room_dump]) = [] ∧
  enqueued (explorer_init room_dump) `prefix_of` [room_dump].
Proof.
  destruct (explore_ends_empty 500 (λ _, Some (Ok tt)) 3
              (explorer_init room_dump)
              (mkExplorer {[ room_dump ]} [] [room_dump])) as (H1 & _ & H2).
  - apply explore_room.
  - split; [exact H1 | exact H2].
Defined.

(** ** The exceptions of the machine *)





















(** ** The operator's session *)

Lemma split_once_d path :
  split_once (of_string " ") (of_string "d " ++ path) = [of_string "d"; path].
Proof. reflexivity. Qed.

Lemma dump_command_cases can_open inp vm files :
  (startswith (of_string "d ") inp = false ∧
   dump_command can_open inp vm files = inl files) ∨
  ∃ path, inp = of_string "d " ++ path ∧
    dump_command can_open inp vm files
    = if can_open path then inl (files ++ [(path, str_dump (dump vm))])
      else inr OSError.
Proof.
  unfold dump_command. destruct (startswith (of_string "d ") inp) eqn:E; [|by left].
  right. apply startswith_app in E. exists (drop 2 inp). split; [exact E|].
  rewrite E at 1. by rewrite split_once_d.
Qed.

Lemma output_state vm : state (output vm).2 = state vm.
Proof. done. Qed.




(** X23: the dump command is not kept from the machine.  When the machine
    waits for input after the two [look]s, a line [d <path>] writes the
    text of the machine's snapshot to that path (everything after the first
    space) and is then sent to the machine as input like any other line. *)
Theorem dump_command_is_forwarded (fuel : nat) (can_open : pystr → bool)
    (path : pystr) (rest : list pystr) (vm vm1 vm2 : Vm)
    (out : list pystr) (files : list (pystr * pystr)) :
  state vm = READY → run fuel vm = Some (Ok vm1) →
  state vm1 = INPUT_BLOCKED →
  run fuel (input look_cmd (output vm1).2) = Some (Ok vm2) →
  can_open path = true →
  resume_loop fuel can_open ((of_string "d " ++ path) :: rest) vm out files
  = resume_loop fuel can_open rest
      (input (of_string "d " ++ path ++ [NL]) vm2)
      (out ++ [(output vm1).1])
      (files ++ [(path, str_dump (dump vm2))]).
Proof.
  intros Hst Hrun Hb Hrun2 Hopen. cbn [resume_loop]. rewrite Hst, Hrun.
  destruct (output vm1) as [s vm1'] eqn:Eo.
  assert (Hb' : state vm1' = INPUT_BLOCKED).
  { rewrite <- Hb, <- (output_state vm1). by rewrite Eo. }
  rewrite Hb'. cbn [fst snd] in *. rewrite Hrun2.
  rewrite bool_decide_eq_false_2 by done.
  destruct (dump_command_cases can_open (of_string "d " ++ path) vm2 files)
    as [[E _]|(path' & E & ->)]; [done|].
  apply app_inv_head in E. subst path'. rewrite Hopen.
  by rewrite <- app_assoc.
Qed.

Lemma dump_command_is_forwarded_witness :
  resume_loop 500 (λ _, true) [of_string "d f"; of_string "q"]
    (input look_cmd (from_dump room_dump)) [] []
  = resume_loop 500 (λ _, true) [of_string "q"]
      (input (of_string "d " ++ of_string "f" ++ [NL]) after_look2)
      ([] ++ [(output after_look).1])
      ([] ++ [(of_string "f", str_dump (dump after_look2))]).
Proof.
  apply (dump_command_is_forwarded 500 (λ _, true) (of_string "f") [of_string "q"]
           (input look_cmd (from_dump room_dump)) after_look after_look2 [] []);
    vm_compute; reflexivity.
Defined.

Lemma resume_loop_frame fuel can_open lines : ∀ vm out files vm' con',
  resume_loop fuel can_open lines vm out files = Returns (vm', con') →
  state vm' ≠ READY ∧
  (∃ consumed, lines = consumed ++ stdin con' ∧
     (length (written con') ≤ length files + length consumed)%nat ∧
     (state vm' = INPUT_BLOCKED → last consumed = Some (of_string "q"))) ∧
  (∃ printed, stdout con' = out ++ printed ++ [of_string "--- VM Exited ---"]) ∧
  files `prefix_of` written con'.
Proof.
  induction lines as [|inp rest IH]; intros vm out files vm' con';
    cbn [resume_loop]; destruct (state vm); try done;
    (destruct (run fuel vm) as [[vm1|e1]|] eqn:E1; try done);
    pose proof (run_not_ready_after _ _ _ E1) as Hnr;
    rewrite <- (output_state vm1) in Hnr;
    destruct (output vm1) as [s vm2]; cbn [snd] in Hnr;
    destruct (state vm2) eqn:Hs2; try done.
  - intros [= <- <-]. simpl. split; [congruence|]. split.
    + exists []. repeat split; [lia|congruence].
    + split; [|done]. exists [s]. by rewrite <- app_assoc.
  - destruct (run fuel (input look_cmd vm2)) as [[vm3|e3]|]; done.
  - intros [= <- <-]. simpl. split; [congruence|]. split.
    + exists []. repeat split; [lia|congruence].
    + split; [|done]. exists [s]. by rewrite <- app_assoc.
  - destruct (run fuel (input look_cmd vm2)) as [[vm3|e3]|] eqn:E3; try done.
    pose proof (run_not_ready_after _ _ _ E3) as Hnr3.
    case_bool_decide as Hq.
    + intros [= <- <-]. simpl. split; [done|]. split.
      * exists [inp]. repeat split; [simpl; lia|]. intros _. by rewrite Hq.
      * split; [|done]. exists [s]. by rewrite <- app_assoc.
    + destruct (dump_command_cases can_open inp vm3 files) as [[_ ->]|(path & _ & ->)].
      * intros (H1 & (consumed & -> & Hlen & Hlast) & (printed & Hp) & Hf)%IH.
        split; [done|]. split.
        -- exists (inp :: consumed). repeat split; [simpl; lia|].
           intros Hb. specialize (Hlast Hb). destruct consumed; [done|].
           by rewrite last_cons, Hlast.
        -- split; [|done]. exists (s :: printed). rewrite Hp.
           by rewrite <- !app_assoc.
      * destruct (can_open path); [|done].
        intros (H1 & (consumed & -> & Hlen & Hlast) & (printed & Hp) & Hf)%IH.
        split; [done|]. split.
        -- exists (inp :: consumed). rewrite length_app in Hlen.
           repeat split; [simpl in *; lia|].
           intros Hb. specialize (Hlast Hb). destruct consumed; [done|].
           by rewrite last_cons, Hlast.
        -- split.
           ++ exists (s :: printed). rewrite Hp. by rewrite <- !app_assoc.
           ++ etrans; [|exact Hf]. by apply prefix_app_r.
Qed.

(** X24: a session that returns leaves the machine Halted, or waiting for
    input with [q] as the last line taken from the operator.  It takes the
    operator's lines from the front, prints the banner first and the exit
    line last, and only adds to the files written, at most one per line
    taken. *)
Theorem resume_session (fuel : nat) (can_open : pystr → bool)
    (vm vm' : Vm) (con con' : Console) :
  resume fuel can_open vm con = Returns (vm', con') →
  state vm' ≠ READY ∧
  (∃ consumed, stdin con = consumed ++ stdin con' ∧
     (length (written con') ≤ length (written con) + length consumed)%nat ∧
     (state vm' = INPUT_BLOCKED → last consumed = Some (of_string "q"))) ∧
  (∃ printed, stdout con'
              = stdout con ++ [of_string "--- Resuming VM ---"] ++ printed
                ++ [of_string "--- VM Exited ---"]) ∧
  written con `prefix_of` written con'.
Proof.
  intros (H1 & H2 & (printed & Hp) & H4)%resume_loop_frame.
  split; [done|]. split; [done|]. split; [|done].
  exists printed. by rewrite Hp, <- !app_assoc.
Qed.

Lemma resume_session_witness :
  ∃ vm' con',
    resume 500 (λ _, true) (from_dump room_dump)
      (mkConsole [of_string "q"; of_string "north"] [] [])
    = Returns (vm', con') ∧
    state vm' ≠ READY ∧ written con' = [] ∧
    ∃ consumed, [of_string "q"; of_string "north"] = consumed ++ stdin con'.
Proof.
  assert (E : resume 500 (λ _, true) (from_dump room_dump)
                (mkConsole [of_string "q"; of_string "north"] [] [])
              = Returns (after_look2,
                         mkConsole [of_string "north"]
                           [of_string "--- Resuming VM ---"; room_text;
                            of_string "--- VM Exited ---"] []))
    by (vm_compute; reflexivity).
  destruct (resume_session _ _ _ _ _ _ E) as (H1 & (consumed & H2 & _) & _).
  eexists _, _. split; [exact E|]. split; [exact H1|]. split; [reflexivity|].
  exists consumed. exact H2.
Defined.

(** ** The explorer visits every successor *)

Lemma successors_in_mono (fuel : nat) (d : Dump) (X X' : gset Dump) :
  X ⊆ X' → successors_in fuel d X → successors_in fuel d X'.
Proof.
  intros Hsub (vm & title & text & interests & exits & Hrun & Hparse & Hex).
  exists vm, title, text, interests, exits. repeat split; [done..|].
  intros exit Hin Hne. destruct (Hex exit Hin Hne) as (vm' & ? & ?).
  exists vm'. split; [done|]. by apply Hsub.
Qed.

Lemma try_exit_delta fuel d ex exit ex' :
  try_exit fuel d ex exit = Some (Ok ex') →
  (∃ new, enqueued ex' = enqueued ex ++ new ∧ q ex' = q ex ++ new) ∧
  (exit ≠ of_string "ladder" →
   ∃ vm, run fuel (input (exit ++ [NL]) (from_dump d)) = Some (Ok vm) ∧
         dump vm ∈ seen ex').
Proof.
  unfold try_exit. case_bool_decide as Hl.
  { intros [= <-]. split; [exists []; by rewrite !app_nil_r|done]. }
  destruct (run fuel (input (exit ++ [NL]) (from_dump d))) as [[vm|e]|]; try done.
  case_bool_decide as Hs; intros [= <-]; simpl.
  - split; [exists []; by rewrite !app_nil_r|]. intros _. by exists vm.
  - split; [by exists [dump vm]|]. intros _. exists vm. split; [done|].
    apply elem_of_union_l. by apply elem_of_singleton.
Qed.

Lemma for_exits_delta fuel d exits : ∀ ex ex',
  for_exits fuel d ex exits = Some (Ok ex') →
  (∃ new, enqueued ex' = enqueued ex ++ new ∧ q ex' = q ex ++ new) ∧
  (∀ exit, exit ∈ exits → exit ≠ of_string "ladder" →
   ∃ vm, run fuel (input (exit ++ [NL]) (from_dump d)) = Some (Ok vm) ∧
         dump vm ∈ seen ex').
Proof.
  induction exits as [|exit exits IH]; intros ex ex'; simpl.
  - intros [= <-]. split; [exists []; by rewrite !app_nil_r|].
    by intros exit ?%elem_of_nil.
  - destruct (try_exit fuel d ex exit) as [[ex1|e]|] eqn:E; try done.
    intros Hrest. pose proof (for_exits_grows _ _ _ _ _ Hrest) as [Hsub _].
    apply IH in Hrest as [(new2 & He2 & Hq2) Hsucc].
    apply try_exit_delta in E as [(new1 & He1 & Hq1) Hhead].
    split.
    + exists (new1 ++ new2). by rewrite He2, He1, Hq2, Hq1, !app_assoc.
    + intros x [->|Hx]%elem_of_cons Hne; [|by apply Hsucc].
      destruct (Hhead Hne) as (vm & ? & ?). exists vm. split; [done|].
      by apply Hsub.
Qed.

Lemma explore_node_delta fuel resume d ex ex' :
  explore_node fuel resume d ex = Some (Ok ex') →
  (∃ new, enqueued ex' = enqueued ex ++ new ∧ q ex' = q ex ++ new) ∧
  successors_in fuel d (seen ex').
Proof.
  unfold explore_node, successors_in.
  destruct (run fuel _) as [[vm|e]|] eqn:Hrun; try done.
  destruct (output vm) as [out vm1] eqn:Hout.
  destruct (parse_room out) as [[[[title text] interests] exits]|e] eqn:Hp; [|done].
  destruct (if anomaly title interests exits then resume vm1 else Some (Ok ()))
    as [[[]|e]|]; try done.
  intros [Hd Hs]%for_exits_delta. split; [done|].
  exists vm, title, text, interests, exits. rewrite Hout. done.
Qed.

Lemma explore_processed fuel resume n : ∀ ex ex',
  (∀ d, d ∈ enqueued ex → d ∉ q ex → successors_in fuel d (seen ex)) →
  explore fuel resume n ex = Some (Ok ex') →
  ∀ d, d ∈ enqueued ex' → successors_in fuel d (seen ex').
Proof.
  induction n as [|n IH]; intros ex ex' Hinv; simpl.
  - destruct (q ex) eqn:Hq; [|done]. intros [= <-] d Hd.
    apply Hinv; [done|]. rewrite ?Hq. apply not_elem_of_nil.
  - destruct (q ex) as [|d0 q'] eqn:Hq.
    { intros [= <-] d Hd. apply Hinv; [done|]. rewrite ?Hq. apply not_elem_of_nil. }
    destruct (explore_node fuel resume d0 _) as [[ex1|e]|] eqn:E; try done.
    apply IH. intros d Hd Hnq.
    pose proof (explore_node_grows _ _ _ _ _ E) as [Hsub _].
    apply explore_node_delta in E as [(new & He & Hq1) Hsucc].
    simpl in *. rewrite He in Hd. rewrite Hq1 in Hnq.
    apply not_elem_of_app in Hnq as [Hnq' Hnew].
    apply elem_of_app in Hd as [Hd|Hd]; [|done].
    destruct (decide (d = d0)) as [->|Hne]; [done|].
    apply (successors_in_mono fuel d (seen ex)); [done|].
    apply Hinv; [done|]. rewrite ?Hq. by intros [?|?]%elem_of_cons.
Qed.

(** X25: the explorer leaves no exit untried.  When the loop started from
    a snapshot ends normally, the starting snapshot is visited, and from
    every visited snapshot the room can be parsed and every exit of it other
    than [ladder] leads to a visited snapshot: the visited set is closed
    under the exits. *)
Theorem explore_closed (fuel : nat) (resume : Vm → option (result unit))
    (n : nat) (d0 : Dump) (ex : Explorer) :
  explore fuel resume n (explorer_init d0) = Some (Ok ex) →
  d0 ∈ seen ex ∧ ∀ d, d ∈ seen ex → successors_in fuel d (seen ex).
Proof.
  intros H.
  assert (Hr : reachable fuel d0 ex).
  { eapply explore_reachable; [apply reach_init|exact H]. }
  destruct (reachable_seen_enqueued _ _ _ Hr) as [Hse _].
  destruct (visited_is_enqueued _ _ _ Hr) as (_ & _ & H0 & _).
  split; [done|]. intros d Hd. apply Hse in Hd. revert d Hd.
  eapply explore_processed; [|exact H].
  simpl. intros d ->%list_elem_of_singleton Hn. destruct Hn. apply list_elem_of_here.
Qed.

Lemma explore_closed_witness :
  successors_in 500 room_dump {[ room_dump ]}.
Proof.
  destruct (explore_closed 500 (λ _, Some (Ok tt)) 3 room_dump
              (mkExplorer {[ room_dump ]} [] [room_dump])) as [H0 H].
  - apply explore_room.
  - apply H. exact H0.
Defined.

(** ** Words stay words *)

Lemma getitem_nonneg_lt {A} (l : list A) i x :
  getitem l i = Ok x → 0 ≤ i → i < Z.of_nat (length l).
Proof.
  unfold getitem, py_index. intros H Hi.
  destruct (Z.leb_spec 0 i); [|lia].
  destruct (Z.ltb_spec i (Z.of_nat (length l))); [done|]. simpl in H.
  destruct (Z.ltb_spec i 0); [lia|]. by rewrite andb_false_r in H.
Qed.

Lemma grab_full k vm x vm' :
  cells_below k (memory vm) → 0 ≤ ip vm → grab vm = Ok (x, vm') →
  0 ≤ x < 2 ^ k ∧ ip vm + 1 ≤ Z.of_nat (length (memory vm)) ∧
  vm' = set_ip (ip vm + 1) vm.
Proof.
  intros Hm Hip H. apply grab_inv in H as (Hget & _ & ->).
  split; [by eapply getitem_below|]. split; [|done].
  pose proof (getitem_nonneg_lt _ _ _ Hget Hip). lia.
Qed.

Lemma read1_full k f o f' :
  cells_below k (unread f) → sio_read1 f = (o, f') →
  cells_below k (unread f') ∧ (∀ c, o = Some c → 0 ≤ c < 2 ^ k).
Proof.
  intros Hq. unfold sio_read1. destruct (buf f !! pos f) as [y|] eqn:E;
    intros [= <- <-]; [|done].
  rewrite (unread_cons f y E) in Hq. apply Forall_cons_1 in Hq as [Hy Hq].
  split; [done|]. by intros c [= <-].
Qed.

Lemma cells_removelast k l : cells_below k l → cells_below k (removelast l).
Proof.
  intros H. destruct (last l) as [x|] eqn:E.
  - apply last_Some in E as [l' ->]. rewrite removelast_last.
    by apply Forall_app in H as [H _].
  - apply last_None in E as ->. done.
Qed.

Ltac solve_bound k Hk :=
  first [ assumption | lia
        | apply (bool_int_below k Hk) | apply (mod15_below k Hk)
        | apply (not15_below k Hk)
        | apply land_below; first [exact Hk | assumption]
        | apply lor_below; first [exact Hk | assumption]
        | apply mod_below;
          first [exact Hk | assumption | lia | by apply Z.eqb_neq] ].

(** One inversion step on a successful run of a piece of [step], keeping
    the bounds of what was read. *)
Ltac full_inv k Hk :=
  match goal with
  | H : grab _ = Ok _ |- _ =>
      apply (grab_full k) in H;
      [destruct H as (? & ? & ->) | by_conv | unfold_setters; lia]
  | H : val _ _ = Ok _ |- _ =>
      apply (val_below k) in H; [destruct H as [-> ?] | by_conv | assumption]
  | H : pop _ = Ok _ |- _ =>
      apply (pop_below k) in H;
      [ destruct H as [? ->]
      | first [ by_conv
              | match goal with
                | E : stack _ = _ |- _ => unfold_setters; rewrite E; by_conv
                end ] ]
  | H : push _ _ = Ok _ |- _ => apply push_inv in H; subst
  | H : gets _ _ = Ok _ |- _ => apply gets_inv in H; destruct H as [-> ->]
  | H : modify _ _ = Ok _ |- _ => apply modify_inv in H; subst
  | H : ret _ _ = Ok _ |- _ => apply ret_inv in H; destruct H as [_ ->]
  | H : raise _ _ = Ok _ |- _ => discriminate H
  | H : lift (getitem _ _) _ = Ok _ |- _ =>
      apply lift_inv in H; destruct H as [H ->];
      apply (getitem_below k) in H; [|by_conv]
  | H : lift _ _ = Ok _ |- _ => apply lift_inv in H; destruct H as [? ->]
  | H : sio_read1 _ = _ |- _ =>
      apply (read1_full k) in H; [destruct H as [? ?] | by_conv]
  | H : store _ _ _ = Ok _ |- _ => apply store_inv in H; destruct H as (? & _ & ->)
  | H : (if ?b then _ else _) _ = Ok _ |- _ => destruct b eqn:?
  | H : (match ?l with [] => _ | _ :: _ => _ end) _ = Ok _ |- _ =>
      let E := fresh "E" in destruct l eqn:E
  | H : (let (_, _) := ?p in _) _ = Ok _ |- _ => destruct p as [[?|] ?] eqn:?
  | H : bind _ _ _ = Ok _ |- _ =>
      apply bind_inv in H; destruct H as (? & ? & ? & H); cbv beta in H
  end.

Ltac full_fin k Hk :=
  unfold machine_below; unfold_setters; rewrite ?length_insert;
  repeat match goal with |- _ ∧ _ => split end;
  first
    [ by_conv | assumption | lia
    | apply Forall_insert; [by_conv | solve_bound k Hk]
    | apply Forall_app; split;
      [by_conv | constructor; [solve_bound k Hk | constructor]]
    | apply cells_removelast; by_conv
    | match goal with
      | H : ∀ c, Some ?x = Some c → _ |- _ =>
          specialize (H x eq_refl); apply Forall_insert; [by_conv | exact H]
      end ].

Lemma step_keeps_machine_below k vm vm' :
  15 ≤ k → machine_below k vm → step vm = Ok (tt, vm') → machine_below k vm'.
Proof.
  intros Hk (Hm & Hs & Hq & Hip & Hlen) H. unfold step in H.
  apply bind_inv in H as (op & vm1 & Hg & H).
  apply (grab_full k) in Hg as (Hop & Hnext & ->); [|done|lia].
  destruct op as [|p|p]; [| |lia].
  - repeat full_inv k Hk; full_fin k Hk.
  - repeat (destruct p as [p|p|];
      try solve [repeat full_inv k Hk; full_fin k Hk]).
Qed.

(** X26: words stay words.  For every k >= 15, if the memory cells, the
    stack entries, the unread input characters and the ip are in [0, 2^k)
    and the memory has fewer than 2^k cells, the same holds after every
    instruction that raises nothing, and so after [run].  A machine loaded
    from a file of at most 65535 words and given input characters below
    65536 is such a machine for k = 16: all it ever stores are 16-bit
    numbers. *)
Theorem words_stay_words (k : Z) (vm vm' : Vm) :
  15 ≤ k →
  (machine_below k vm →
     (step vm = Ok (tt, vm') → machine_below k vm') ∧
     (∀ fuel, run fuel vm = Some (Ok vm') → machine_below k vm')) ∧
  (∀ file s, Z.of_nat (length file) ≤ 131070 → cells_below 16 s →
     machine_below 16 (input s (from_file file))).
Proof.
  intros Hk. split.
  - intros Hvm. split; [by apply step_keeps_machine_below|].
    intros fuel. apply (run_invariant (machine_below k)); [|done].
    intros v v' _ Hv Hs. by eapply step_keeps_machine_below.
  - intros file s Hlen Hs. unfold machine_below.
    rewrite input_overwrites_pending.
    pose proof (from_file_length file) as Hl.
    pose proof (from_file_below file) as Hb.
    assert (Hw : Z.of_nat ((length file + 1) / 2) < 65536).
    { rewrite Nat2Z.inj_div. apply Z.div_lt_upper_bound; lia. }
    repeat split.
    + exact Hb.
    + constructor.
    + apply Forall_app. split; [done|].
      change (unread (reader (from_file file))) with (@nil Z).
      rewrite drop_nil. constructor.
    + simpl. lia.
    + change (memory (input s (from_file file))) with (memory (from_file file)).
      change (2 ^ 16) with 65536. lia.
Qed.

Lemma words_stay_words_witness :
  machine_below 16 out_a_done.
Proof.
  destruct (words_stay_words 16 (Vm_init (out_prog [65]) [] 0) out_a_done)
    as [H1 _]; [lia|].
  apply H1 with (fuel := 5%nat).
  - unfold machine_below. simpl. repeat split; try lia; repeat constructor; lia.
  - vm_compute. reflexivity.
Defined.

(** The opening commands of [main] are ["\n".join(lines) + "\n"]. *)
Lemma walkthrough_join :
  walkthrough
  = join [NL]
      (map of_string
         ["take tablet"; "doorway"; "north"; "north"; "bridge"; "continue";
          "down"; "east"; "take empty lantern"; "west"; "west"; "passage";
          "ladder"]%string) ++ [NL].
Proof. reflexivity. Qed.
